(** * The data-model layer of the task manager

    A shallow embedding of the Sequelize models [Task], [User] and [Tag]
    and of the associations of [models/index.ts], followed by the
    entity-validation and relationship-integrity engine the models rely
    on, and by the properties proved about them. *)

From Stdlib Require Import ZArith String Ascii List Bool Lia Floats Uint63.
From stdpp Require Import base option list gmap strings pretty relations sorting.

Open Scope string_scope.
Open Scope Z_scope.

(** ** JavaScript values the models compute with *)

Module JS.

(** A [Date] holds a time value: milliseconds since the epoch, or NaN for
    an invalid date. *)
Inductive Date : Type :=
  | InvalidDate
  | DateAt (ms : Z).

#[global] Instance Date_eq_dec : EqDecision Date.
Proof. solve_decision. Defined.

(** [new Date()] reads the wall clock; [now] is the instant that was read. *)
Definition new_Date (now : Z) : Date := DateAt now.

(** [a < b] and [a <= b] on dates compare the time values as numbers; every
    comparison with NaN is false. *)
Definition date_lt (a b : Date) : bool :=
    match a, b with
    | DateAt x, DateAt y => x <? y
    | _, _ => false
    end.

Definition date_le (a b : Date) : bool :=
    match a, b with
    | DateAt x, DateAt y => x <=? y
    | _, _ => false
    end.

(** A number is an IEEE 754 double; an array length converts exactly. *)
Definition of_length (n : nat) : float :=
    PrimFloat.of_uint63 (Uint63.of_Z (Z.of_nat n)).

Definition is_infinite (x : float) : bool :=
    (x =? infinity)%float || (x =? neg_infinity)%float.

(** The integer nearest to a finite double, the larger one on a tie. *)
Definition round_half_up (x : float) : Z :=
    match Prim2SF x with
    | S754_finite _ m e =>
        if 0 <=? e then Z.pos m * 2 ^ e
        else (2 * Z.pos m + 2 ^ (- e)) / 2 ^ (- e + 1)
    | _ => 0
    end.

Section ToFixed.
(** [Number::toString] on magnitudes of 1e21 and more prints an exponent;
    that routine of the engine is taken as given. *)
Variable numberToString : float -> string.

(** [x.toFixed(0)]. *)
Definition toFixed0 (x : float) : string :=
      if PrimFloat.is_nan x then "NaN"
      else if is_infinite x then
        (if (x <? 0)%float then "-Infinity" else "Infinity")
      else
        let s := if (x <? 0)%float then "-" else "" in
        let a := PrimFloat.abs x in
        if (1e21 <=? a)%float then s ++ numberToString a
        else s ++ pretty (round_half_up a).
End ToFixed.

End JS.

(** ** Attribute declarations, as [Model.init] receives them *)

Module Schema.
Import JS.

(** A field value of a candidate record. *)
Inductive Value : Type :=
  | VNull
  | VString (s : string)
  | VInt (n : Z)
  | VDate (d : Date).

#[global] Instance Value_eq_dec : EqDecision Value.
Proof. solve_decision. Defined.

(** *** Character classes of the patterns (characters are code units) *)

Definition code (c : ascii) : Z := Z.of_N (N_of_ascii c).
Definition isDigit (c : ascii) : bool := (48 <=? code c) && (code c <=? 57).
Definition isUpper (c : ascii) : bool := (65 <=? code c) && (code c <=? 90).
Definition isLower (c : ascii) : bool := (97 <=? code c) && (code c <=? 122).
Definition isLetter (c : ascii) : bool := isUpper c || isLower c.
Definition isAlnum (c : ascii) : bool := isDigit c || isLetter c.
(** [\w] is [[A-Za-z0-9_]]. *)
Definition isWord (c : ascii) : bool := isAlnum c || (code c =? 95).
(** [[A-Fa-f0-9]]. *)
Definition isHex (c : ascii) : bool :=
    isDigit c || ((65 <=? code c) && (code c <=? 70))
              || ((97 <=? code c) && (code c <=? 102)).
(** [\s]: tab, line feed, vertical tab, form feed, carriage return, space. *)
Definition isSpace (c : ascii) : bool :=
    ((9 <=? code c) && (code c <=? 13)) || (code c =? 32).
(** [.] matches every character but the line terminators. *)
Definition isLineTerminator (c : ascii) : bool :=
    (code c =? 10) || (code c =? 13).

Definition chars (s : string) : list ascii := list_ascii_of_string s.

Definition lowerChar (c : ascii) : ascii :=
    if isUpper c then ascii_of_N (N_of_ascii c + 32) else c.

(** [str.toLowerCase()]. *)
Definition toLowerCase (s : string) : string :=
    string_of_list_ascii (map lowerChar (chars s)).

(** The regular expressions given to [is:]. *)
Inductive Regex : Type :=
  | LettersOnly   (* /^[a-zA-Z]+$/ *)
  | HexColor.     (* /^#([A-Fa-f0-9]{6}|[A-Fa-f0-9]{3})$/ *)

Definition test (re : Regex) (s : string) : bool :=
    match re with
    | LettersOnly =>
        negb (bool_decide (chars s = [])) && forallb isLetter (chars s)
    | HexColor =>
        match chars s with
        | "#"%char :: ds =>
            (bool_decide (length ds = 6%nat) || bool_decide (length ds = 3%nat))
            && forallb isHex ds
        | _ => false
        end
    end.

(** *** Validators: the keys of a [validate: {...}] object

    [len] counts characters and [isAlphanumeric] is [/^[0-9A-Z]+$/i], as
    validator.js defines them; [notEmpty] is Sequelize's
    [!/^[\s\t\r\n]*$/]; [isLowercase] is [str === str.toLowerCase()]. *)

Inductive Rule : Type :=
  | Len (min max : nat)            (* len: [min, max] *)
  | IsIn (allowed : list string)   (* isIn: [[...]] *)
  | IsDate                         (* isDate: true *)
  | IsAlphanumeric                 (* isAlphanumeric: true *)
  | IsEmail                        (* isEmail: true *)
  | IsLowercase                    (* isLowercase: true *)
  | NotEmpty                       (* notEmpty: true *)
  | Is (re : Regex)                (* is: /.../ *)
  (* a validator written in the model: it receives the value, may read the
     clock, and throws an Error with a message to reject *)
  | Custom (name : string) (check : Z -> Value -> option string).

Definition ruleName (r : Rule) : string :=
    match r with
    | Len _ _ => "len"
    | IsIn _ => "isIn"
    | IsDate => "isDate"
    | IsAlphanumeric => "isAlphanumeric"
    | IsEmail => "isEmail"
    | IsLowercase => "isLowercase"
    | NotEmpty => "notEmpty"
    | Is _ => "is"
    | Custom name _ => name
    end.

Definition isBuiltin (r : Rule) : bool :=
    match r with Custom _ _ => false | _ => true end.

Inductive DataType : Type :=
  | INTEGER
  | STRING (length : option nat)
  | TEXT
  | DATE.

Inductive Default : Type :=
  | Literal (v : Value)
  | NOW.

(** One attribute of [Model.init]. Keys the source leaves out take
    Sequelize's defaults: [allowNull: true], no default value, not unique,
    no setter. *)
Record FieldSpec : Type := {
    name : string;
    type : DataType;
    allowNull : bool;
    defaultValue : option Default;
    unique : bool;
    autoIncrement : bool;
    primaryKey : bool;
    validate : list Rule;
    set : option (Value -> Value);
    references : option (string * string);
  }.

Definition attribute (name : string) (type : DataType) (allowNull : bool)
      (defaultValue : option Default) (unique : bool) (validate : list Rule)
      (references : option (string * string)) : FieldSpec :=
    {| name := name; type := type; allowNull := allowNull;
       defaultValue := defaultValue; unique := unique;
       autoIncrement := false; primaryKey := false;
       validate := validate; set := None; references := references |}.

(** [id: { type: DataTypes.INTEGER, autoIncrement: true, primaryKey: true }]. *)
Definition idAttribute : FieldSpec :=
    {| name := "id"; type := INTEGER; allowNull := true;
       defaultValue := None; unique := false;
       autoIncrement := true; primaryKey := true;
       validate := []; set := None; references := None |}.

(** [createdAt] and [updatedAt]: [allowNull: false, defaultValue: NOW]. *)
Definition timestamp (name : string) : FieldSpec :=
    attribute name DATE false (Some NOW) false [] None.

Record EntitySchema : Type := {
    entityName : string;   (* modelName *)
    tableName : string;
    fields : list FieldSpec;
    primaryKeyField : string;
  }.

(** The rules a schema declares, field after field. *)
Definition rulesOf (schema : EntitySchema) : list Rule :=
    concat (map validate (fields schema)).

(** The error taxonomy. *)
Inductive Error : Type :=
  | RequiredFieldMissing
  | ValidationFailed (field rule message : string)
  | DuplicateValue (field : string)
  | DanglingReference (field : string)
  | NotFound (entityName : string) (id : Z)
  | ReferencedByChildren (childEntity : string) (count : nat)
  | CascadeCycle (path : list (string * Z))
  | LockTimeout.

#[global] Instance Error_eq_dec : EqDecision Error.
Proof. solve_decision. Defined.

(** The validators supplied by validator.js whose definition is not part
    of the models. *)
Class ValidatorJS : Type := { isEmail : string -> bool }.

Section Holds.
Context `{!ValidatorJS}.

(** Whether [v] satisfies [r] when the clock reads [now]. A rule on a
    value of another shape than the one it is declared for is violated. *)
Definition holds (now : Z) (r : Rule) (v : Value) : bool :=
      match r, v with
      | Len lo hi, VString s =>
          bool_decide (lo <= String.length s)%nat
          && bool_decide (String.length s <= hi)%nat
      | IsIn allowed, VString s => bool_decide (s ∈ allowed)
      | IsDate, VDate (DateAt _) => true
      | IsAlphanumeric, VString s =>
          negb (bool_decide (chars s = [])) && forallb isAlnum (chars s)
      | IsEmail, VString s => isEmail s
      | IsLowercase, VString s => bool_decide (s = toLowerCase s)
      | NotEmpty, VString s => negb (forallb isSpace (chars s))
      | Is re, VString s => test re s
      | Custom _ check, _ =>
          match check now v with None => true | Some _ => false end
      | _, _ => false
      end.

(** The message of a violation: what the custom validator threw, or
    Sequelize's ["Validation <rule> on <field> failed"]. *)
Definition message (now : Z) (field : string) (r : Rule) (v : Value) : string :=
      match r with
      | Custom _ check => default "" (check now v)
      | _ => "Validation " ++ ruleName r ++ " on " ++ field ++ " failed"
      end.
End Holds.

End Schema.

(** ** The Task model (Task.ts) *)

Module Task.
Import JS Schema.

Record t : Type := {
    id : Z;
    title : string;
    description : string;
    status : string;
    dueDate : Date;
    priority : string;
    userId : Z;
    projectId : Z;
  }.

(** [isOverdue()], evaluated when the clock reads [now]. *)
Definition isOverdue (now : Z) (this : t) : bool :=
    if date_lt (dueDate this) (new_Date now)
       && negb (String.eqb (status this) "completed")
    then true
    else false.

(** [getProgress()]: a [switch] on the status. *)
Definition getProgress (this : t) : string :=
    if String.eqb (status this) "completed" then "100%"
    else if String.eqb (status this) "in_progress" then "50%"
    else if String.eqb (status this) "cancelled" then "0%"
    else "0%".

(** The custom validator of [dueDate]:
    [if (value <= new Date()) throw new Error(...)]. *)
Definition isFutureDate (now : Z) (value : Date) : option string :=
    if date_le value (new_Date now)
    then Some "Due date must be in the future"
    else None.

(** The attribute has type DATE, which hands its validators a [Date]: a
    number is the time value it holds, anything else is an invalid date. *)
Definition toDate (v : Value) : Date :=
    match v with
    | VDate d => d
    | VInt n => DateAt n
    | _ => InvalidDate
    end.

Definition isFutureDateRule : Rule :=
    Custom "isFutureDate" (fun now v => isFutureDate now (toDate v)).

(** [dueDate: { type: DATE, allowNull: false,
    validate: { isDate: true, isFutureDate(value) {...} } }]. *)
Definition dueDateAttribute : FieldSpec :=
    attribute "dueDate" DATE false None false [IsDate; isFutureDateRule] None.

(** [Task.init({...}, {...})]. *)
Definition schema : EntitySchema :=
    {| entityName := "Task";
       tableName := "tasks";
       primaryKeyField := "id";
       fields :=
         [ idAttribute;
           attribute "title" (STRING (Some 100%nat)) false None false
             [Len 3 100] None;
           attribute "description" TEXT true None false [] None;
           attribute "status" (STRING None) false
             (Some (Literal (VString "pending"))) false
             [IsIn ["pending"; "in_progress"; "completed"; "cancelled"]] None;
           dueDateAttribute;
           attribute "priority" (STRING None) false
             (Some (Literal (VString "medium"))) false
             [IsIn ["low"; "medium"; "high"]] None;
           attribute "userId" INTEGER false None false []
             (Some ("users", "id"));
           attribute "projectId" INTEGER false None false []
             (Some ("projects", "id"));
           timestamp "createdAt";
           timestamp "updatedAt" ] |}.

End Task.

(** ** The User model (User.ts) *)

Module User.
Import JS Schema.

Record t : Type := {
    id : Z;
    username : string;
    email : string;
    password : string;
    firstName : string;
    lastName : string;
  }.

Definition getFullName (this : t) : string :=
    firstName this ++ " " ++ lastName this.

Section Methods.
Variable numberToString : float -> string.

(** [getTaskCompletionRate()], on the tasks [getTasks()] resolved to. *)
Definition getTaskCompletionRate (tasks : list Task.t) : string :=
      let completedTasks :=
        filter (fun task => Task.status task = "completed") tasks in
      let completionRate :=
        (of_length (length completedTasks) / of_length (length tasks) * 100)%float in
      toFixed0 numberToString completionRate ++ "%".
End Methods.


(** [/^(?=.*[A-Z])(?=.*\d)(?=.*[\W_]).{8,100}$/.test(value)]: the body
    [.{8,100}] spans the whole input, so no character is a line terminator
    and each lookahead asks for one character of its class anywhere. *)
Definition strongPasswordRegex (value : string) : bool :=
    let cs := chars value in
    existsb isUpper cs
    && existsb isDigit cs
    && existsb (fun c => negb (isWord c) || (code c =? 95)) cs
    && bool_decide (8 <= length cs <= 100)%nat
    && forallb (fun c => negb (isLineTerminator c)) cs.

(** The custom validator of [password]. *)
Definition isStrongPassword (value : string) : option string :=
    if negb (strongPasswordRegex value)
    then Some "Password must contain at least one uppercase letter, one number, and one special character."
    else None.

(** The attribute has type STRING; a value that is not a string is
    rejected. *)
Definition isStrongPasswordRule : Rule :=
    Custom "isStrongPassword" (fun _ v =>
      match v with
      | VString s => isStrongPassword s
      | _ => Some "Password must contain at least one uppercase letter, one number, and one special character."
      end).

(** [email: { type: STRING, allowNull: false, unique: true,
    validate: { isEmail: true, isLowercase: true } }]; no setter. *)
Definition emailAttribute : FieldSpec :=
    attribute "email" (STRING None) false None true [IsEmail; IsLowercase] None.

(** [User.init({...}, {...})]. *)
Definition schema : EntitySchema :=
    {| entityName := "User";
       tableName := "users";
       primaryKeyField := "id";
       fields :=
         [ idAttribute;
           attribute "username" (STRING None) false None true
             [Len 3 30; IsAlphanumeric] None;
           emailAttribute;
           attribute "password" (STRING None) false None false
             [Len 8 100; isStrongPasswordRule] None;
           attribute "firstName" (STRING None) false None false
             [Len 2 50; Is LettersOnly] None;
           attribute "lastName" (STRING None) false None false
             [Len 2 50; Is LettersOnly] None;
           timestamp "createdAt";
           timestamp "updatedAt" ] |}.

End User.

(** ** The Tag model (Tag.ts) *)

Module Tag.
Import Schema.

Record t : Type := {
    id : Z;
    name : string;
    color : string;
  }.

(** [Tag.init({...}, {...})]. *)
Definition schema : EntitySchema :=
    {| entityName := "Tag";
       tableName := "tags";
       primaryKeyField := "id";
       fields :=
         [ idAttribute;
           attribute "name" (STRING None) false None true
             [NotEmpty; Len 1 50] None;
           attribute "color" (STRING None) false
             (Some (Literal (VString "#3498db"))) false
             [Is HexColor] None;
           timestamp "createdAt";
           timestamp "updatedAt" ] |}.

End Tag.

(** ** The associations (models/index.ts) *)

Module Index.

Inductive OnDelete : Type := Cascade | Restrict | SetNull.

Inductive RelationshipKind : Type := OneToMany | ManyToMany.

(** A relationship from a source model to a target model, as
    [Source.hasMany(Target, ...)] and [Source.belongsToMany(Target, ...)]
    declare it. The foreign key of a one-to-many relationship is a field of
    the target; the pairs of a many-to-many relationship live in the join
    table. *)
Record Relationship : Type := {
    kind : RelationshipKind;
    sourceEntity : string;
    targetEntity : string;
    foreignKeyField : string;
    joinTableName : option string;
    onDelete : OnDelete;
  }.

#[global] Instance OnDelete_eq_dec : EqDecision OnDelete.
Proof. solve_decision. Defined.

#[global] Instance RelationshipKind_eq_dec : EqDecision RelationshipKind.
Proof. solve_decision. Defined.

Definition hasMany (source target foreignKey : string) (onDelete : OnDelete)
      : Relationship :=
    {| kind := OneToMany; sourceEntity := source; targetEntity := target;
       foreignKeyField := foreignKey; joinTableName := None;
       onDelete := onDelete |}.

(** Sequelize removes the join rows of a deleted record: the default
    [onDelete] of [belongsToMany] is CASCADE. *)
Definition belongsToMany (source target through foreignKey : string)
      : Relationship :=
    {| kind := ManyToMany; sourceEntity := source; targetEntity := target;
       foreignKeyField := foreignKey; joinTableName := Some through;
       onDelete := Cascade |}.

(** The calls of index.ts. [Task.belongsTo(User)] and
    [Task.belongsTo(Project)] name the child's end of the two [hasMany]
    relationships and add none. *)
Definition relationships : list Relationship :=
    [ hasMany "User" "Task" "userId" Cascade;
      hasMany "Project" "Task" "projectId" Cascade;
      belongsToMany "Task" "Tag" "TaskTags" "taskId";
      belongsToMany "Tag" "Task" "TaskTags" "tagId" ].

(** The global hooks [afterCreate], [afterUpdate] and [afterDestroy]: the
    line each one logs for an instance of the model [constructorName] whose
    id is [id]. A template literal prints an integer in decimal. *)
Definition afterCreate (constructorName : string) (id : Z) : string :=
    "New record created in " ++ constructorName ++ " with ID: " ++ pretty id.

Definition afterUpdate (constructorName : string) (id : Z) : string :=
    "Record updated in " ++ constructorName ++ " with ID: " ++ pretty id.

Definition afterDestroy (constructorName : string) (id : Z) : string :=
    "Record deleted from " ++ constructorName ++ " with ID: " ++ pretty id.

End Index.

(** ** The engine under the models: validation, relationships, store

    The models declare their rules, defaults, keys and associations; the
    code that runs them (Sequelize and the database) is not part of the
    sources. The engine below is modelled from the specification of the
    Field Validator, the Entity Schema, the Relationship Registry and the
    Entity Store, and runs the declarations of the models. *)

Module Engine.
Import JS Schema Index.

Inductive Result (E A : Type) : Type :=
  | Ok (a : A)
  | Fails (e : E).
Arguments Ok {E A} a.
Arguments Fails {E A} e.

(** The fields a caller hands to [create] or [update]; a key that is not
    bound was omitted. *)
Abbreviation Candidate := (gmap string Value).

(** A failure report: the violations, each under its field name. *)
Abbreviation Report := (list (string * Error)).

Section Validation.
Context `{!ValidatorJS}.

(** *** Field Validator *)

(** Modelled from the spec: [validate(value, rule)], Ok ([None]) or the
    error of the rule. The rule itself is the model's; [now] is the instant
    a rule that reads the clock finds there. *)
Definition validate (now : Z) (field : string) (value : Value) (rule : Rule)
        : option Error :=
      if holds now rule value then None
      else Some (ValidationFailed field (ruleName rule)
                   (message now field rule value)).

(** Modelled from the spec: the rules of a field compose conjunctively,
    and the first violated rule gives the error. *)
Fixpoint firstViolation (now : Z) (field : string) (value : Value)
        (rules : list Rule) : option Error :=
      match rules with
      | [] => None
      | rule :: rules' =>
          match validate now field value rule with
          | Some e => Some e
          | None => firstViolation now field value rules'
          end
      end.

(** Modelled from the spec: a null or absent value fails a field that is
    not nullable with RequiredFieldMissing before any rule runs, and skips
    the rules of a nullable field. *)
Definition validateField (now : Z) (f : FieldSpec) (v : option Value)
        : option Error :=
      match v with
      | None | Some VNull =>
          if allowNull f then None else Some RequiredFieldMissing
      | Some value => firstViolation now (name f) value (Schema.validate f)
      end.

(** *** Entity Schema *)

Definition defaultOf (now : Z) (d : Default) : Value :=
      match d with
      | Literal v => v
      | NOW => VDate (new_Date now)
      end.

(** Modelled from the spec: the value a field is validated and stored
    with. Defaults are applied to omitted fields and values are normalized
    by the field's setter, both before validation. *)
Definition fieldValue (now : Z) (f : FieldSpec) (c : Candidate)
        : option Value :=
      match c !! name f with
      | Some v => Some (match set f with Some g => g v | None => v end)
      | None => defaultOf now <$> defaultValue f
      end.

(** Modelled from the spec: the fields of the record to store, every
    declared field with the value it was validated with. *)
Definition prepare (now : Z) (schema : EntitySchema) (c : Candidate)
        : Candidate :=
      foldr (fun f acc =>
               match fieldValue now f c with
               | Some v => <[name f := v]> acc
               | None => acc
               end) c (fields schema).

(** Modelled from the spec: [validateRecord(candidateFields)], every field
    in declaration order, all failures collected; the report is empty when
    the candidate is valid. The key the store assigns is not validated. *)
Definition validateRecord (now : Z) (schema : EntitySchema) (c : Candidate)
        : Report :=
      omap (fun f =>
              if autoIncrement f then None
              else pair (name f) <$> validateField now f (fieldValue now f c))
           (fields schema).

(** Whether a field of the schema violates its declaration on [c]. *)
Definition violates (now : Z) (c : Candidate) (f : FieldSpec) : Prop :=
      autoIncrement f = false
      /\ is_Some (validateField now f (fieldValue now f c)).

#[global] Instance violates_dec now c f : Decision (violates now c f).
Proof. unfold violates. apply _. Defined.
End Validation.

(** *** Entity Store: the tables *)

Abbreviation Node := (string * Z)%type.

(** Modelled from the spec: a Record
    [{id, entityName, fields, createdAt, updatedAt}]. *)
Record Rec : Type := {
    id : Z;
    entity : string;
    fieldsOf : gmap string Value;
    createdAt : Z;
    updatedAt : Z;
  }.

(** A join table, keyed by (sourceId, targetId); a row keeps the instant it
    was inserted at. *)
Abbreviation JoinTable := (gmap (Z * Z) Z).

(** Modelled from the spec: the tables, keyed by entity kind and id, the
    counter of each entity kind, and the join tables by name. *)
Record Store : Type := {
    records : gmap Node Rec;
    nextId : gmap string Z;
    joins : gmap string JoinTable;
  }.

Definition empty : Store :=
    {| records := ∅; nextId := ∅; joins := ∅ |}.

(** Modelled from the spec: the surrogate id the next [create] of an entity
    kind assigns ([autoIncrement: true] in the models); ids start at 1. *)
Definition nextIdOf (s : Store) (entityName : string) : Z :=
    default 1 (nextId s !! entityName).

(** Every stored record holds an id below the next one of its kind. *)
Definition idsBelowNext (s : Store) : Prop :=
    forall entityName i,
      is_Some (records s !! (entityName, i)) -> i < nextIdOf s entityName.

(** *** Relationship Registry *)

Section Registry.
Variable rels : list Relationship.

(** Whether [value], held by a foreign key, names a record of the parent
    entity; a null key references nothing. *)
Definition parentExists (recs : gmap Node Rec) (parent : string)
        (value : Value) : bool :=
      match value with
      | VNull => true
      | VInt p => bool_decide (is_Some (recs !! (parent, p)))
      | _ => false
      end.

(** Modelled from the spec: [checkForeignKey(entityName, fieldName, value)];
    a one-to-many foreign key must name an existing parent. *)
Definition checkForeignKey (recs : gmap Node Rec) (entityName fieldName : string)
        (value : Value) : option Error :=
      if forallb (fun r =>
                    negb (bool_decide (kind r = OneToMany
                                       ∧ targetEntity r = entityName
                                       ∧ foreignKeyField r = fieldName))
                    || parentExists recs (sourceEntity r) value) rels
      then None
      else Some (DanglingReference fieldName).

Fixpoint firstSome {A B : Type} (f : A -> option B) (xs : list A) : option B :=
      match xs with
      | [] => None
      | x :: xs' =>
          match f x with
          | Some b => Some b
          | None => firstSome f xs'
          end
      end.

Definition checkForeignKeys (recs : gmap Node Rec) (entityName : string)
        (c : Candidate) : option Error :=
      firstSome (fun r =>
                   if bool_decide (kind r = OneToMany ∧ targetEntity r = entityName)
                   then checkForeignKey recs entityName (foreignKeyField r)
                          (default VNull (c !! foreignKeyField r))
                   else None) rels.

(** Modelled from the spec: the children of [n] through [r], the records
    of the target entity whose foreign key holds the id of [n]. *)
Definition childrenOf (recs : gmap Node Rec) (r : Relationship) (n : Node)
        : list Node :=
      if bool_decide (kind r = OneToMany ∧ sourceEntity r = n.1) then
        (filter (fun kv : Node * Rec =>
                   kv.1.1 = targetEntity r
                   ∧ fieldsOf kv.2 !! foreignKeyField r = Some (VInt n.2))
                (map_to_list recs)).*1
      else [].

Definition edges (recs : gmap Node Rec) (n : Node)
        : list (Relationship * Node) :=
      r ← rels; c ← childrenOf recs r n; [(r, c)].

(** The side effects of a delete. *)
Inductive Op : Type :=
    | DeleteOp (n : Node)
    | SetNullOp (n : Node) (field : string).

Fixpoint visitAll {A : Type} (f : A -> option (Result Error (list Op)))
        (xs : list A) : option (Result Error (list Op)) :=
      match xs with
      | [] => Some (Ok [])
      | x :: xs' =>
          match f x with
          | Some (Ok ops) =>
              match visitAll f xs' with
              | Some (Ok ops') => Some (Ok (ops ++ ops')%list)
              | other => other
              end
          | other => other
          end
      end.

(** Modelled from the spec: what the delete of [n] does to one child, by
    the [onDelete] policy of the relationship: Cascade deletes the child
    recursively ([self] is the recursive visit), Restrict fails with
    ReferencedByChildren, SetNull nulls the child's foreign key. *)
Definition visitChild (self : list Node -> Node -> option (Result Error (list Op)))
        (recs : gmap Node Rec) (path : list Node) (n : Node)
        (e : Relationship * Node) : option (Result Error (list Op)) :=
      match onDelete e.1 with
      | Cascade => self (n :: path) e.2
      | Restrict =>
          Some (Fails (ReferencedByChildren (targetEntity e.1)
                         (length (childrenOf recs e.1 n))))
      | SetNull => Some (Ok [SetNullOp e.2 (foreignKeyField e.1)])
      end.

(** Modelled from the spec: the cascade of a delete, which is not in the
    sources (index.ts declares [onDelete: "CASCADE"] and leaves the work to
    the database). Depth-first over the children, detecting cycles: [path]
    holds the records whose children are being visited, innermost first,
    and a record met again on it fails with CascadeCycle. The side effects
    come children first. [None] stands for a visit cut short by [fuel]. *)
Fixpoint cascade (recs : gmap Node Rec) (fuel : nat) (path : list Node)
        (n : Node) : option (Result Error (list Op)) :=
      match fuel with
      | O => None
      | S fuel' =>
          if bool_decide (n ∈ path)
          then Some (Fails (CascadeCycle (reverse (n :: path))))
          else
            match visitAll (visitChild (cascade recs fuel') recs path n)
                           (edges recs n) with
            | Some (Ok ops) => Some (Ok (ops ++ [DeleteOp n])%list)
            | other => other
            end
      end.

(** Modelled from the spec: [cascadeOnDelete(entityName, id)], the list of
    side effects to apply. The fuel covers every record of the store. *)
Definition cascadeOnDelete (recs : gmap Node Rec) (n : Node)
        : option (Result Error (list Op)) :=
      cascade recs (2 + size recs) [] n.

(** [c] is a record that the delete of [n] cascades to: a child of [n]
    through a relationship with the Cascade policy. *)
Definition cascadesTo (recs : gmap Node Rec) (n c : Node) : Prop :=
      exists r, r ∈ rels /\ onDelete r = Cascade /\ c ∈ childrenOf recs r n.

Definition setNull (field : string) (r : Rec) : Rec :=
      {| id := id r; entity := entity r;
         fieldsOf := <[field := VNull]> (fieldsOf r);
         createdAt := createdAt r; updatedAt := updatedAt r |}.

Definition applyOp (recs : gmap Node Rec) (op : Op) : gmap Node Rec :=
      match op with
      | DeleteOp n => base.delete n recs
      | SetNullOp n field => alter (setNull field) n recs
      end.

Definition applyOps (recs : gmap Node Rec) (ops : list Op) : gmap Node Rec :=
      foldl applyOp recs ops.
End Registry.

(** *** Entity Store: the operations *)

Inductive Failure : Type :=
  | Invalid (report : Report)    (* the collected validation failures *)
  | Refused (e : Error).         (* a relationship or store failure *)

Inductive Operation : Type := Created | Updated | Deleted.

(** A change event [{entityName, id, operation}]. *)
Record Event : Type := {
    evEntity : string;
    evId : Z;
    evOperation : Operation;
  }.

#[global] Instance Operation_eq_dec : EqDecision Operation.
Proof. solve_decision. Defined.

Section StoreOps.
Context `{!ValidatorJS}.
Variable rels : list Relationship.

(** Whether a record of the entity other than [own] holds [value] in
    [field]. *)
Definition conflicts (recs : gmap Node Rec) (entityName field : string)
        (own : option Z) (value : Value) : bool :=
      existsb (fun kv : Node * Rec =>
                 bool_decide (kv.1.1 = entityName
                              ∧ Some kv.1.2 ≠ own
                              ∧ fieldsOf kv.2 !! field = Some value))
              (map_to_list recs).

(** Modelled from the spec: before create and update, every field declared
    unique is checked against the other records; a null holds no value. *)
Definition checkUnique (recs : gmap Node Rec) (schema : EntitySchema)
        (own : option Z) (c : Candidate) : option Error :=
      firstSome (fun f =>
                   if Schema.unique f then
                     match c !! name f with
                     | None | Some VNull => None
                     | Some value =>
                         if conflicts recs (entityName schema) (name f) own value
                         then Some (DuplicateValue (name f))
                         else None
                     end
                   else None) (fields schema).

(** Modelled from the spec: the data flow of create and update. Validation,
    then the foreign keys, then uniqueness; the first of the three that
    fails refuses the record. *)
Definition vet (s : Store) (now : Z) (schema : EntitySchema)
        (own : option Z) (c : Candidate) : Result Failure Candidate :=
      match validateRecord now schema c with
      | (_ :: _) as report => Fails (Invalid report)
      | [] =>
          let c' := prepare now schema c in
          match checkForeignKeys rels (records s) (entityName schema) c' with
          | Some e => Fails (Refused e)
          | None =>
              match checkUnique (records s) schema own c' with
              | Some e => Fails (Refused e)
              | None => Ok c'
              end
          end
      end.

(** Modelled from the spec: [create(entityName, fields)]. The record gets
    the next id of its kind, and the counter moves past it. *)
Definition create (s : Store) (now : Z) (schema : EntitySchema)
        (c : Candidate) : Result Failure (Rec * Store) :=
      match vet s now schema None c with
      | Fails e => Fails e
      | Ok c' =>
          let i := nextIdOf s (entityName schema) in
          let r := {| id := i; entity := entityName schema;
                      fieldsOf := <[primaryKeyField schema := VInt i]> c';
                      createdAt := now; updatedAt := now |} in
          Ok (r, {| records := <[(entityName schema, i) := r]> (records s);
                    nextId := <[entityName schema := i + 1]> (nextId s);
                    joins := joins s |})
      end.

(** Modelled from the spec: [update(entityName, id, fields)], re-validated,
    [updatedAt] refreshed; the id and the counter stay. *)
Definition update (s : Store) (now : Z) (schema : EntitySchema) (i : Z)
        (c : Candidate) : Result Failure (Rec * Store) :=
      match records s !! (entityName schema, i) with
      | None => Fails (Refused (NotFound (entityName schema) i))
      | Some old =>
          match vet s now schema (Some i) (c ∪ fieldsOf old) with
          | Fails e => Fails e
          | Ok c' =>
              let r := {| id := i; entity := entityName schema;
                          fieldsOf := <[primaryKeyField schema := VInt i]> c';
                          createdAt := createdAt old; updatedAt := now |} in
              Ok (r, {| records := <[(entityName schema, i) := r]> (records s);
                        nextId := nextId s;
                        joins := joins s |})
          end
      end.

(** Modelled from the spec: [delete(entityName, id)], which applies the
    side effects of the cascade; the counter stays. [None] only if the
    cascade was cut short. *)
Definition delete (s : Store) (entityName : string) (i : Z)
        : option (Result Error (list Op * Store)) :=
      match records s !! (entityName, i) with
      | None => Some (Fails (NotFound entityName i))
      | Some _ =>
          match cascadeOnDelete rels (records s) (entityName, i) with
          | None => None
          | Some (Fails e) => Some (Fails e)
          | Some (Ok ops) =>
              Some (Ok (ops, {| records := applyOps (records s) ops;
                                nextId := nextId s;
                                joins := joins s |}))
          end
      end.

Definition get (s : Store) (entityName : string) (i : Z)
        : Result Error Rec :=
      match records s !! (entityName, i) with
      | Some r => Ok r
      | None => Fails (NotFound entityName i)
      end.

(** *** Many-to-many membership *)

(** Modelled from the spec: the join table of a many-to-many relationship
    (index.ts declares [through: "TaskTags"] only). Inserting a pair that is
    present is a no-op, not an error. *)
Definition insertPair (now : Z) (pair : Z * Z) (t : JoinTable) : JoinTable :=
      match t !! pair with
      | Some _ => t
      | None => <[pair := now]> t
      end.

Definition joinTable (s : Store) (through : string) : JoinTable :=
      default ∅ (joins s !! through).

(** Modelled from the spec: adding a (source, target) association to the
    join table [through], as [task.addTags] and [tag.addTask] do. *)
Definition addAssociation (s : Store) (now : Z) (through : string)
        (sourceId targetId : Z) : Store :=
      {| records := records s;
         nextId := nextId s;
         joins := <[through := insertPair now (sourceId, targetId)
                                 (joinTable s through)]> (joins s) |}.

Definition removeAssociation (s : Store) (through : string)
        (sourceId targetId : Z) : Store :=
      {| records := records s;
         nextId := nextId s;
         joins := <[through := base.delete (sourceId, targetId)
                                 (joinTable s through)]> (joins s) |}.

(** The rows of a join table that hold a given pair. *)
Definition entriesFor (t : JoinTable) (pair : Z * Z) : list (Z * Z * Z) :=
      filter (fun kv : Z * Z * Z => kv.1 = pair) (map_to_list t).

(** *** The store over its lifetime *)

Inductive Command : Type :=
    | Create (now : Z) (schema : EntitySchema) (c : Candidate)
    | Update (now : Z) (schema : EntitySchema) (i : Z) (c : Candidate)
    | Delete (entityName : string) (i : Z)
    | AddAssociation (now : Z) (through : string) (sourceId targetId : Z)
    | RemoveAssociation (through : string) (sourceId targetId : Z).

Definition eventOf (op : Op) : Event :=
      match op with
      | DeleteOp n => {| evEntity := n.1; evId := n.2; evOperation := Deleted |}
      | SetNullOp n _ => {| evEntity := n.1; evId := n.2; evOperation := Updated |}
      end.

(** Modelled from the spec: one operation on the store, with the change
    events it emitted. A command that fails leaves the store as it was and
    emits nothing. *)
Definition step (s : Store) (cmd : Command) : option (Store * list Event) :=
      match cmd with
      | Create now schema c =>
          match create s now schema c with
          | Ok (r, s') =>
              Some (s', [{| evEntity := entityName schema; evId := id r;
                            evOperation := Created |}])
          | Fails _ => Some (s, [])
          end
      | Update now schema i c =>
          match update s now schema i c with
          | Ok (r, s') =>
              Some (s', [{| evEntity := entityName schema; evId := id r;
                            evOperation := Updated |}])
          | Fails _ => Some (s, [])
          end
      | Delete entityName i =>
          match delete s entityName i with
          | None => None
          | Some (Ok (ops, s')) => Some (s', map eventOf ops)
          | Some (Fails _) => Some (s, [])
          end
      | AddAssociation now through a b =>
          Some (addAssociation s now through a b, [])
      | RemoveAssociation through a b =>
          Some (removeAssociation s through a b, [])
      end.

Fixpoint run (s : Store) (cmds : list Command) : option (Store * list Event) :=
      match cmds with
      | [] => Some (s, [])
      | cmd :: cmds' =>
          match step s cmd with
          | None => None
          | Some (s1, evs1) =>
              match run s1 cmds' with
              | None => None
              | Some (s2, evs2) => Some (s2, (evs1 ++ evs2)%list)
              end
          end
      end.

(** The ids that [create] assigned to records of an entity kind, oldest
    first. *)
Definition createdIds (entityName : string) (evs : list Event) : list Z :=
      evId <$> filter (fun ev => evEntity ev = entityName
                                 ∧ evOperation ev = Created) evs.
End StoreOps.

End Engine.

(** ** Sample data *)

Module Samples.
Import JS Schema Index Engine.

(** A stand-in for validator.js's [isEmail] on the inputs below: an address
    has one [@], with text on both sides. *)
Definition isEmail (s : string) : bool :=
  match filter (fun c => c = "@"%char) (chars s) with
  | [_] =>
      negb (bool_decide (head (chars s) = Some "@"%char))
      && negb (bool_decide (last (chars s) = Some "@"%char))
  | _ => false
  end.

Definition validator : ValidatorJS := {| Schema.isEmail := isEmail |}.

Definition alice : Candidate :=
  {[ "username" := VString "alice";
     "email" := VString "alice@example.com";
     "password" := VString "Secret_123";
     "firstName" := VString "Alice";
     "lastName" := VString "Liddell" ]}.

(** The same address as [alice], in another letter case. *)
Definition alicia : Candidate :=
  {[ "username" := VString "alicia";
     "email" := VString "Alice@Example.com";
     "password" := VString "Secret_123";
     "firstName" := VString "Alicia";
     "lastName" := VString "Liddell" ]}.

(** A candidate with four fields that violate their rules. *)
Definition careless : Candidate :=
  {[ "username" := VString "al";
     "email" := VString "Alice@example.com";
     "password" := VString "secret";
     "firstName" := VString "A1";
     "lastName" := VString "Liddell" ]}.

Definition record (entityName : string) (i : Z) (fs : Candidate) : Rec :=
  {| id := i; entity := entityName; fieldsOf := <["id" := VInt i]> fs;
     createdAt := 0; updatedAt := 0 |}.

(** A store with one user and one project. *)
Definition office : Store :=
  {| records := {[ ("User", 1) := record "User" 1 alice;
                   ("Project", 1) := record "Project" 1
                                       {[ "name" := VString "Launch" ]} ]};
     nextId := {[ "User" := 2; "Project" := 2 ]};
     joins := ∅ |}.

(** A task due at instant 200. *)
Definition report : Candidate :=
  {[ "title" := VString "Write the report";
     "dueDate" := VDate (DateAt 200);
     "userId" := VInt 1;
     "projectId" := VInt 1 ]}.

(** Subtasks: a task names its parent task, and the parent's delete
    cascades. *)
Definition subtasks : list Relationship :=
  [ hasMany "Task" "Task" "parentId" Cascade ].

(** Two tasks, each the parent of the other. *)
Definition knot : Store :=
  {| records := {[ ("Task", 1) := record "Task" 1 {[ "parentId" := VInt 2 ]};
                   ("Task", 2) := record "Task" 2 {[ "parentId" := VInt 1 ]} ]};
     nextId := {[ "Task" := 3 ]};
     joins := ∅ |}.

(** The office with two tasks of its user, one of them in its project. *)
Definition busyOffice : Store :=
  {| records :=
       <[("Task", 1) := record "Task" 1 (<["projectId" := VInt 1]> report)]>
         (<[("Task", 2) := record "Task" 2 (<["projectId" := VInt 9]> report)]>
            (records office));
     nextId := <["Task" := 3]> (nextId office);
     joins := ∅ |}.

(** A task instance with a given status, due at instant 200. *)
Definition task (i : Z) (status : string) : Task.t :=
  {| Task.id := i; Task.title := "Write the report"; Task.description := "";
     Task.status := status; Task.dueDate := DateAt 200;
     Task.priority := "medium"; Task.userId := 1; Task.projectId := 1 |}.

End Samples.

(** * Properties *)

(** ** Task.isOverdue and Task.getProgress *)

Section TaskMethods.
Import JS.

Lemma date_lt_spec (a b : Date) :
    date_lt a b = true <-> exists x y, a = DateAt x /\ b = DateAt y /\ x < y.
Proof.
    split.
    - destruct a as [|x], b as [|y]; simpl; try discriminate.
      intros H. exists x, y. repeat split; lia.
    - intros (x & y & -> & -> & Hlt). simpl. lia.
Qed.

Lemma string_eqb_false (a b : string) : a <> b -> String.eqb a b = false.
Proof. intros H. apply String.eqb_neq. exact H. Qed.

(** C1. [isOverdue()] is true exactly when the due date is strictly before
    the current date and the status is not "completed"; in particular a
    completed task due in the past is not overdue, and an in-progress task
    due in the past is. *)
Theorem isOverdue_iff (now : Z) (this : Task.t) :
    (Task.isOverdue now this = true
       <-> (exists due, Task.dueDate this = DateAt due /\ due < now)
           /\ Task.status this <> "completed")
    /\ (Task.status this = "completed" -> Task.isOverdue now this = false)
    /\ (forall due, Task.status this = "in_progress" ->
          Task.dueDate this = DateAt due -> due < now ->
          Task.isOverdue now this = true).
Proof.
    assert (Hiff : Task.isOverdue now this = true
       <-> (exists due, Task.dueDate this = DateAt due /\ due < now)
           /\ Task.status this <> "completed").
    { unfold Task.isOverdue, new_Date.
      destruct (date_lt (Task.dueDate this) (DateAt now)) eqn:Hlt;
        destruct (String.eqb (Task.status this) "completed") eqn:Hst; simpl.
      - apply String.eqb_eq in Hst. split; [discriminate | tauto].
      - apply String.eqb_neq in Hst. apply date_lt_spec in Hlt.
        destruct Hlt as (x & y & Hx & Hy & Hxy). injection Hy as <-.
        split; [|reflexivity]. intros _. split; [eauto | exact Hst].
      - split; [discriminate|]. intros [(due & Hd & Hlt') _].
        rewrite Hd in Hlt. simpl in Hlt. lia.
      - split; [discriminate|]. intros [(due & Hd & Hlt') _].
        rewrite Hd in Hlt. simpl in Hlt. lia. }
    split; [exact Hiff|]. split.
    - intros Hc. apply not_true_is_false. intros E.
      apply Hiff in E. tauto.
    - intros due Hs Hd Hlt. apply Hiff. split; [eauto|].
      rewrite Hs. discriminate.
Qed.

(** C10. [getProgress()] is total and returns one of "100%", "50%" and
    "0%", by the status alone: "completed" gives "100%", "in_progress"
    gives "50%", every other status gives "0%". *)
Theorem getProgress_cases (this : Task.t) :
    (Task.getProgress this = "100%" \/ Task.getProgress this = "50%"
       \/ Task.getProgress this = "0%")
    /\ (Task.status this = "completed" -> Task.getProgress this = "100%")
    /\ (Task.status this = "in_progress" -> Task.getProgress this = "50%")
    /\ (Task.status this = "pending" -> Task.getProgress this = "0%")
    /\ (Task.status this = "cancelled" -> Task.getProgress this = "0%")
    /\ (Task.status this <> "completed" -> Task.status this <> "in_progress" ->
          Task.getProgress this = "0%")
    /\ (forall other, Task.status other = Task.status this ->
          Task.getProgress other = Task.getProgress this).
Proof.
    unfold Task.getProgress.
    repeat split.
    - destruct (String.eqb _ "completed"); [tauto|].
      destruct (String.eqb _ "in_progress"); [tauto|].
      destruct (String.eqb _ "cancelled"); tauto.
    - intros ->. reflexivity.
    - intros ->. reflexivity.
    - intros ->. reflexivity.
    - intros ->. reflexivity.
    - intros H1 H2. rewrite !string_eqb_false by assumption.
      destruct (String.eqb _ "cancelled"); reflexivity.
    - intros other ->. reflexivity.
Qed.

End TaskMethods.

(** ** User.getTaskCompletionRate *)

Section CompletionRate.
Import JS.
Variable numberToString : float -> string.

Lemma completion_rate_of_half :
  User.getTaskCompletionRate numberToString
    (map (fun st => {| Task.id := 1; Task.title := "t"; Task.description := "";
                       Task.status := st; Task.dueDate := DateAt 0;
                       Task.priority := "low"; Task.userId := 1;
                       Task.projectId := 1 |})
         ["completed"; "pending"; "completed"; "cancelled"]) = "50%".
Proof. vm_compute. reflexivity. Qed.

(** C4. On a user without tasks the completion rate divides zero by zero,
    with no guard: the quotient is NaN, and the method returns "NaN%", which
    is no numeral followed by a percent sign. *)
Theorem getTaskCompletionRate_no_tasks :
  PrimFloat.is_nan (of_length (length (@nil Task.t))
                    / of_length (length (@nil Task.t)))%float = true
  /\ User.getTaskCompletionRate numberToString [] = "NaN%"
  /\ (forall digits : string,
        forallb Schema.isDigit (Schema.chars digits) = true ->
        User.getTaskCompletionRate numberToString [] <> digits ++ "%").
Proof.
  split; [vm_compute; reflexivity|].
  assert (E : User.getTaskCompletionRate numberToString [] = "NaN%")
    by (vm_compute; reflexivity).
  split; [exact E|].
  intros digits Hd. rewrite E. intros Heq.
  destruct digits as [|c1 [|c2 [|c3 [|c4 ds]]]]; simpl in Heq; try discriminate.
  - injection Heq as H1 H2 H3. subst. vm_compute in Hd. discriminate.
  - injection Heq as H1 H2 H3 H4 Heq. destruct ds; discriminate.
Qed.

End CompletionRate.

(** ** Validation of a candidate record *)

Section ValidationProperties.
Import JS Schema Engine.
Context `{!ValidatorJS}.

Lemma validate_None (now : Z) (field : string) (v : Value) (r : Rule) :
  validate now field v r = None <-> holds now r v = true.
Proof.
  unfold validate. destruct (holds now r v); split; congruence.
Qed.

Lemma firstViolation_None (now : Z) (field : string) (v : Value) (rules : list Rule) :
  firstViolation now field v rules = None
  <-> Forall (fun r => holds now r v = true) rules.
Proof.
  induction rules as [|r rules IH]; simpl.
  - split; [constructor | reflexivity].
  - destruct (validate now field v r) eqn:E.
    + split; [discriminate|]. intros Hall. inversion Hall as [|? ? Hr _]; subst.
      rewrite (proj2 (validate_None now field v r) Hr) in E. discriminate.
    + apply validate_None in E. rewrite IH. split.
      * intros Hall. constructor; assumption.
      * intros Hall. inversion Hall; assumption.
Qed.

(** The error of a field is the error of its first violated rule. *)
Lemma firstViolation_Some (now : Z) (field : string) (v : Value)
    (rules : list Rule) (e : Error) :
  firstViolation now field v rules = Some e ->
  exists passed r rest,
    rules = (passed ++ r :: rest)%list
    /\ Forall (fun r' => holds now r' v = true) passed
    /\ holds now r v = false
    /\ e = ValidationFailed field (ruleName r) (message now field r v).
Proof.
  induction rules as [|r rules IH]; simpl; [discriminate|].
  unfold validate at 1. destruct (holds now r v) eqn:Hr.
  - intros Hrec. destruct (IH Hrec) as (passed & r' & rest & -> & Hp & Hv & He).
    exists (r :: passed), r', rest. repeat split; try assumption.
    constructor; assumption.
  - intros [= <-]. exists [], r, rules. repeat split; [constructor | assumption].
Qed.

Lemma validateRecord_elem (now : Z) (schema : EntitySchema) (c : Candidate)
    (k : string) (e : Error) :
  (k, e) ∈ validateRecord now schema c
  <-> exists f, f ∈ fields schema /\ autoIncrement f = false /\ name f = k
                /\ validateField now f (fieldValue now f c) = Some e.
Proof.
  unfold validateRecord. rewrite list_elem_of_omap. split.
  - intros (f & Hin & Hf). exists f. destruct (autoIncrement f); [discriminate|].
    destruct (validateField now f (fieldValue now f c)); simpl in Hf; [|discriminate].
    injection Hf as <- <-. auto.
  - intros (f & Hin & Ha & <- & Hv). exists f. split; [assumption|].
    rewrite Ha, Hv. reflexivity.
Qed.

Lemma validateRecord_order (now : Z) (schema : EntitySchema) (c : Candidate) :
  (validateRecord now schema c).*1 `sublist_of` (name <$> fields schema).
Proof.
  unfold validateRecord. induction (fields schema) as [|f fs IH]; simpl.
  - constructor.
  - destruct (autoIncrement f); simpl.
    + apply sublist_cons. exact IH.
    + destruct (validateField now f (fieldValue now f c)); simpl.
      * apply sublist_skip. exact IH.
      * apply sublist_cons. exact IH.
Qed.

Lemma validateRecord_length (now : Z) (schema : EntitySchema) (c : Candidate) :
  length (validateRecord now schema c)
  = length (filter (violates now c) (fields schema)).
Proof.
  unfold validateRecord. induction (fields schema) as [|f fs IH]; simpl.
  - reflexivity.
  - destruct (decide (violates now c f)) as [Hv|Hv].
    + rewrite filter_cons_True by exact Hv.
      destruct Hv as [Ha [e He]]. rewrite Ha, He. cbn [fmap option_fmap option_map length]. f_equal. exact IH.
    + rewrite filter_cons_False by exact Hv.
      destruct (autoIncrement f) eqn:Ha; [exact IH|].
      destruct (validateField now f (fieldValue now f c)) eqn:He; simpl.
      * exfalso. apply Hv. split; [exact Ha | rewrite He; eauto].
      * exact IH.
Qed.

Lemma validateRecord_nil (now : Z) (schema : EntitySchema) (c : Candidate) :
  validateRecord now schema c = []
  <-> Forall (fun f => autoIncrement f = true
                       \/ validateField now f (fieldValue now f c) = None)
             (fields schema).
Proof.
  unfold validateRecord. induction (fields schema) as [|f fs IH]; simpl.
  - split; [constructor | reflexivity].
  - destruct (autoIncrement f) eqn:Ha.
    + rewrite IH. split.
      * intros Hall. constructor; [left; exact Ha | assumption].
      * intros Hall. inversion Hall; assumption.
    + destruct (validateField now f (fieldValue now f c)) eqn:Hv; simpl.
      * split; [discriminate|]. intros Hall.
        inversion Hall as [|? ? [Hf|Hf] _]; congruence.
      * rewrite IH. split.
        -- intros Hall. constructor; [right; exact Hv | assumption].
        -- intros Hall. inversion Hall; assumption.
Qed.

(** C6. [validateRecord] goes through every field in declaration order and
    its report holds the violation of every field that violates its rules:
    as many entries as there are violating fields, none dropped after the
    first. *)
Theorem validateRecord_collects_all (now : Z) (schema : EntitySchema) (c : Candidate) :
  (forall f e, f ∈ fields schema -> autoIncrement f = false ->
     validateField now f (fieldValue now f c) = Some e ->
     (name f, e) ∈ validateRecord now schema c)
  /\ (forall k e, (k, e) ∈ validateRecord now schema c ->
        exists f, f ∈ fields schema /\ name f = k
                  /\ validateField now f (fieldValue now f c) = Some e)
  /\ (validateRecord now schema c).*1 `sublist_of` (name <$> fields schema)
  /\ length (validateRecord now schema c)
     = length (filter (violates now c) (fields schema)).
Proof.
  split; [|split; [|split]].
  - intros f e Hin Ha Hv. apply validateRecord_elem. exists f. auto.
  - intros k e Hin. apply validateRecord_elem in Hin.
    destruct Hin as (f & Hf & _ & Hk & Hv). exists f. auto.
  - apply validateRecord_order.
  - apply validateRecord_length.
Qed.

End ValidationProperties.

(** ** The Field Validator and the clock *)

Section ValidatorClock.
Import JS Schema Engine.
Context `{!ValidatorJS}.

Lemma validate_builtin_clock (now1 now2 : Z) (field : string) (v : Value) (r : Rule) :
  isBuiltin r = true ->
  validate now1 field v r = validate now2 field v r.
Proof.
  intros Hb. unfold validate.
  destruct r; try discriminate; reflexivity.
Qed.

Lemma validate_isStrongPassword_clock (now1 now2 : Z) (field : string) (v : Value) :
  validate now1 field v User.isStrongPasswordRule
  = validate now2 field v User.isStrongPasswordRule.
Proof. reflexivity. Qed.

Lemma isFutureDate_monotone (now1 now2 : Z) (d : Date) (msg : string) :
  now1 <= now2 ->
  Task.isFutureDate now1 d = Some msg ->
  Task.isFutureDate now2 d = Some msg.
Proof.
  unfold Task.isFutureDate, new_Date. intros Hle.
  destruct d as [|due]; simpl; [discriminate|].
  destruct (due <=? now1) eqn:E1; [|discriminate].
  intros Hm. assert ((due <=? now2) = true) as -> by lia. exact Hm.
Qed.

Lemma validate_isFutureDate_monotone (now1 now2 : Z) (field : string) (v : Value)
    (e : Error) :
  now1 <= now2 ->
  validate now1 field v Task.isFutureDateRule = Some e ->
  validate now2 field v Task.isFutureDateRule = Some e.
Proof.
  intros Hle. unfold validate, Task.isFutureDateRule. simpl.
  destruct (Task.isFutureDate now1 (Task.toDate v)) as [msg|] eqn:E1; [|discriminate].
  rewrite (isFutureDate_monotone now1 now2 _ msg Hle E1). auto.
Qed.

(** C8, as the code has it. The Field Validator changes no state, and its
    result is a function of the value, the rule and the instant the clock
    reads. Every built-in rule and [isStrongPassword], that is every rule the
    models declare but [isFutureDate], give the same result at every instant;
    [isFutureDate] compares the value with the current time: it accepts
    exactly the dates after the instant read, and a value it rejects is
    rejected at every later instant. *)
Theorem validate_pure_up_to_clock (now1 now2 : Z) (field : string) (v : Value) :
  (forall r, isBuiltin r = true ->
     validate now1 field v r = validate now2 field v r)
  /\ Forall (fun r => ruleName r <> "isFutureDate" ->
                      validate now1 field v r = validate now2 field v r)
            (rulesOf Task.schema ++ rulesOf User.schema ++ rulesOf Tag.schema)%list
  /\ (validate now1 field v Task.isFutureDateRule = None
        <-> date_le (Task.toDate v) (DateAt now1) = false)
  /\ (now1 <= now2 ->
      (forall e,
         validate now1 field v Task.isFutureDateRule = Some e ->
         validate now2 field v Task.isFutureDateRule = Some e)).
Proof.
  split; [|split; [|split]].
  - intros r Hb. apply validate_builtin_clock. exact Hb.
  - repeat constructor; intros Hn;
      first [ apply validate_builtin_clock; reflexivity
            | apply validate_isStrongPassword_clock
            | exfalso; apply Hn; reflexivity ].
  - unfold validate, Task.isFutureDateRule, Task.isFutureDate, new_Date. simpl.
    destruct (date_le (Task.toDate v) (DateAt now1)); split; congruence.
  - intros Hle e. apply validate_isFutureDate_monotone. exact Hle.
Qed.

End ValidatorClock.

(** C8, as stated, fails: the same due date passes [isFutureDate] when the
    clock reads 50 and is rejected when it reads 150. *)
Lemma validate_isFutureDate_not_pure :
  @Engine.validate Samples.validator 50 "dueDate"
     (Schema.VDate (JS.DateAt 100)) Task.isFutureDateRule = None
  /\ @Engine.validate Samples.validator 150 "dueDate"
       (Schema.VDate (JS.DateAt 100)) Task.isFutureDateRule
     = Some (Schema.ValidationFailed "dueDate" "isFutureDate"
               "Due date must be in the future").
Proof. split; reflexivity. Qed.

(** ** Creating records *)

(** Membership in a list that is written out. *)
Ltac declared :=
  simpl; repeat (first [apply list_elem_of_here | apply list_elem_of_further]).

Section CreateProperties.
Import JS Schema Index Engine.
Context `{!ValidatorJS}.

Lemma prepare_lookup_other (now : Z) (schema : EntitySchema) (c : Candidate)
    (k : string) :
  k ∉ name <$> fields schema ->
  prepare now schema c !! k = c !! k.
Proof.
  unfold prepare. induction (fields schema) as [|f fs IH]; simpl; [reflexivity|].
  intros Hk. apply not_elem_of_cons in Hk as [Hne Hk].
  destruct (fieldValue now f c).
  - rewrite lookup_insert_ne by congruence. auto.
  - auto.
Qed.

Lemma fieldValue_None (now : Z) (f : FieldSpec) (c : Candidate) :
  fieldValue now f c = None -> c !! name f = None.
Proof.
  unfold fieldValue. destruct (c !! name f); [discriminate | reflexivity].
Qed.

(** After [prepare], a declared field holds the value it was validated
    with. *)
Lemma prepare_lookup (now : Z) (schema : EntitySchema) (c : Candidate)
    (f : FieldSpec) :
  NoDup (name <$> fields schema) ->
  f ∈ fields schema ->
  prepare now schema c !! name f = fieldValue now f c.
Proof.
  unfold prepare. induction (fields schema) as [|f0 fs IH]; simpl.
  - intros _ Hin. inversion Hin.
  - intros Hnd Hin. apply NoDup_cons in Hnd as [Hf0 Hnd].
    apply elem_of_cons in Hin as [->|Hin].
    + destruct (fieldValue now f0 c) eqn:E.
      * apply lookup_insert_eq.
      * pose proof (prepare_lookup_other now
                      {| entityName := ""; tableName := ""; fields := fs;
                         primaryKeyField := "" |} c (name f0) Hf0) as Ho.
        unfold prepare in Ho. simpl in Ho. rewrite Ho.
        apply fieldValue_None in E. exact E.
    + assert (name f0 <> name f) as Hne.
      { intros Heq. apply Hf0. rewrite Heq. apply list_elem_of_fmap_2. exact Hin. }
      destruct (fieldValue now f0 c).
      * rewrite lookup_insert_ne by exact Hne. auto.
      * auto.
Qed.

Lemma Task_fields_NoDup : NoDup (name <$> fields Task.schema).
Proof. apply (bool_decide_unpack _). vm_compute. exact I. Qed.

Lemma User_fields_NoDup : NoDup (name <$> fields User.schema).
Proof. apply (bool_decide_unpack _). vm_compute. exact I. Qed.

Lemma Task_checkUnique (recs : gmap Node Rec) (own : option Z) (c : Candidate) :
  checkUnique recs Task.schema own c = None.
Proof. reflexivity. Qed.

(** The foreign keys of a task are checked against the users and the
    projects, in the order the relationships were declared. *)
Lemma Task_checkForeignKeys (recs : gmap Node Rec) (c : Candidate) (u p : Z) :
  c !! "userId" = Some (VInt u) ->
  c !! "projectId" = Some (VInt p) ->
  checkForeignKeys relationships recs "Task" c
  = if bool_decide (is_Some (recs !! ("User", u))) then
      if bool_decide (is_Some (recs !! ("Project", p))) then None
      else Some (DanglingReference "projectId")
    else Some (DanglingReference "userId").
Proof.
  intros Hu Hp.
  unfold checkForeignKeys, checkForeignKey, relationships. cbn [firstSome].
  cbn [kind targetEntity sourceEntity foreignKeyField hasMany belongsToMany].
  rewrite Hu, Hp. cbn [default forallb parentExists].
  cbn [kind targetEntity sourceEntity foreignKeyField hasMany belongsToMany].
  repeat (first [ rewrite bool_decide_true by (repeat split; congruence)
                | rewrite bool_decide_false by (intros (? & ? & ?); congruence)
                | rewrite bool_decide_false by (intros (? & ?); congruence) ];
          cbn [negb orb andb]).
  cbv [parentExists Datatypes.id]. rewrite !andb_true_r.
  destruct (bool_decide (is_Some (recs !! ("User", u))));
    destruct (bool_decide (is_Some (recs !! ("Project", p)))); reflexivity.
Qed.

Lemma dueDate_declared : Task.dueDateAttribute ∈ fields Task.schema.
Proof. declared. Qed.

Lemma dueDate_not_future (now : Z) (c : Candidate) (due : Z) :
  c !! "dueDate" = Some (VDate (DateAt due)) ->
  due <= now ->
  validateField now Task.dueDateAttribute (fieldValue now Task.dueDateAttribute c)
  = Some (ValidationFailed "dueDate" "isFutureDate"
            "Due date must be in the future").
Proof.
  intros Hc Hle. unfold fieldValue. simpl. rewrite Hc. simpl.
  unfold validate. simpl. unfold Task.isFutureDate. simpl.
  assert ((due <=? now) = true) as -> by lia. reflexivity.
Qed.

(** A task that declares the four required fields and leaves the rest to
    the defaults passes validation when its title has 3 to 100 characters
    and its due date is after the instant read. *)
Lemma Task_validateRecord_ok (now : Z) (c : Candidate) (title : string)
    (due u p : Z) :
  c !! "title" = Some (VString title) ->
  (3 <= String.length title <= 100)%nat ->
  c !! "dueDate" = Some (VDate (DateAt due)) ->
  now < due ->
  c !! "userId" = Some (VInt u) ->
  c !! "projectId" = Some (VInt p) ->
  c !! "status" = None ->
  c !! "priority" = None ->
  c !! "createdAt" = None ->
  c !! "updatedAt" = None ->
  validateRecord now Task.schema c = [].
Proof.
  intros Ht [Hlo Hhi] Hd Hlt Hu Hp Hs Hpr Hca Hua.
  apply validateRecord_nil. unfold Task.schema, Task.dueDateAttribute. cbn [fields].
  repeat apply Forall_cons_2; try apply Forall_nil_2;
    try (left; reflexivity); right; unfold fieldValue; cbn [name set defaultValue attribute timestamp].
  - rewrite Ht. cbn. unfold validate. cbn.
    rewrite !bool_decide_true by assumption. reflexivity.
  - destruct (c !! "description") as [[]|]; reflexivity.
  - rewrite Hs. reflexivity.
  - rewrite Hd. cbn. unfold validate. cbn. unfold Task.isFutureDate. cbn.
    assert ((due <=? now) = false) as -> by lia. reflexivity.
  - rewrite Hpr. reflexivity.
  - rewrite Hu. reflexivity.
  - rewrite Hp. reflexivity.
  - rewrite Hca. reflexivity.
  - rewrite Hua. reflexivity.
Qed.

(** C2. Creating a task whose due date is not strictly after the current
    time fails validation with the error of the [isFutureDate] rule; creating
    a task with a valid title, a due date in the future and the ids of an
    existing user and an existing project succeeds, and the record has the
    status "pending" when none was given. *)
Theorem create_task_dueDate (s : Store) (now : Z) (c : Candidate) :
  (forall due,
     c !! "dueDate" = Some (VDate (DateAt due)) ->
     due <= now ->
     exists report,
       create relationships s now Task.schema c = Fails (Invalid report)
       /\ ("dueDate", ValidationFailed "dueDate" "isFutureDate"
                        "Due date must be in the future") ∈ report)
  /\ (forall title due u p,
        c !! "title" = Some (VString title) ->
        (3 <= String.length title <= 100)%nat ->
        c !! "dueDate" = Some (VDate (DateAt due)) ->
        now < due ->
        c !! "userId" = Some (VInt u) ->
        is_Some (records s !! ("User", u)) ->
        c !! "projectId" = Some (VInt p) ->
        is_Some (records s !! ("Project", p)) ->
        c !! "status" = None ->
        c !! "priority" = None ->
        c !! "createdAt" = None ->
        c !! "updatedAt" = None ->
        exists r s',
          create relationships s now Task.schema c = Ok (r, s')
          /\ fieldsOf r !! "status" = Some (VString "pending")
          /\ fieldsOf r !! "dueDate" = Some (VDate (DateAt due))
          /\ id r = nextIdOf s "Task"
          /\ records s' !! ("Task", id r) = Some r).
Proof.
  split.
  - intros due Hc Hle.
    assert (Hin : ("dueDate", ValidationFailed "dueDate" "isFutureDate"
                                "Due date must be in the future")
                  ∈ validateRecord now Task.schema c).
    { apply validateRecord_elem. exists Task.dueDateAttribute.
      split; [apply dueDate_declared|].
      split; [reflexivity|]. split; [reflexivity|].
      apply (dueDate_not_future now c due); assumption. }
    unfold create, vet.
    destruct (validateRecord now Task.schema c) as [|x report] eqn:E.
    + inversion Hin.
    + eexists. split; [reflexivity | exact Hin].
  - intros title due u p Ht Hlen Hd Hlt Hu HU Hp HP Hs Hpr Hca Hua.
    assert (Hstatus : prepare now Task.schema c !! "status"
                      = Some (VString "pending")).
    { change "status" with (name (attribute "status" (STRING None) false
               (Some (Literal (VString "pending"))) false
               [IsIn ["pending"; "in_progress"; "completed"; "cancelled"]] None)).
      rewrite prepare_lookup; [| apply Task_fields_NoDup |].
      - unfold fieldValue. cbn [name attribute]. rewrite Hs. reflexivity.
      - declared. }
    assert (Hdue : prepare now Task.schema c !! "dueDate"
                   = Some (VDate (DateAt due))).
    { change "dueDate" with (name Task.dueDateAttribute).
      rewrite prepare_lookup;
        [| apply Task_fields_NoDup | apply dueDate_declared].
      unfold fieldValue. cbn [name Task.dueDateAttribute attribute]. rewrite Hd. reflexivity. }
    assert (Huser : prepare now Task.schema c !! "userId" = Some (VInt u)).
    { change "userId" with (name (attribute "userId" INTEGER false None false []
                                    (Some ("users", "id")))).
      rewrite prepare_lookup; [| apply Task_fields_NoDup |].
      - unfold fieldValue. cbn [name attribute]. rewrite Hu. reflexivity.
      - declared. }
    assert (Hproj : prepare now Task.schema c !! "projectId" = Some (VInt p)).
    { change "projectId" with (name (attribute "projectId" INTEGER false None
                                       false [] (Some ("projects", "id")))).
      rewrite prepare_lookup; [| apply Task_fields_NoDup |].
      - unfold fieldValue. cbn [name attribute]. rewrite Hp. reflexivity.
      - declared. }
    unfold create, vet.
    rewrite (Task_validateRecord_ok now c title due u p) by assumption.
    cbn [entityName Task.schema].
    rewrite (Task_checkForeignKeys (records s) _ u p Huser Hproj).
    rewrite !bool_decide_true by assumption.
    rewrite Task_checkUnique.
    eexists. eexists. split; [reflexivity|]. cbn [fieldsOf id records primaryKeyField].
    repeat split.
    + rewrite lookup_insert_ne by discriminate. exact Hstatus.
    + rewrite lookup_insert_ne by discriminate. exact Hdue.
    + apply lookup_insert_eq.
Qed.

Lemma email_declared : User.emailAttribute ∈ fields User.schema.
Proof. declared. Qed.

(** C7, on the code. The email attribute has no setter and its rules are
    [isEmail] and [isLowercase]: an address with an upper-case letter is not
    brought to lower case, it is validated as given and refused by
    validation, whatever the store holds; uniqueness is never consulted. *)
Theorem create_user_email_as_given (rels : list Relationship) (s : Store)
    (now : Z) (c : Candidate) (e : string) :
  c !! "email" = Some (VString e) ->
  e <> toLowerCase e ->
  fieldValue now User.emailAttribute c = Some (VString e)
  /\ exists report rule,
       create rels s now User.schema c = Fails (Invalid report)
       /\ ("email", ValidationFailed "email" rule
                      ("Validation " ++ rule ++ " on email failed")) ∈ report
       /\ (rule = "isEmail" \/ rule = "isLowercase").
Proof.
  intros Hc Hne.
  assert (Hv : fieldValue now User.emailAttribute c = Some (VString e)).
  { unfold fieldValue. cbn [name User.emailAttribute attribute]. rewrite Hc. reflexivity. }
  split; [exact Hv|].
  assert (Hf : exists rule,
             validateField now User.emailAttribute (fieldValue now User.emailAttribute c)
             = Some (ValidationFailed "email" rule
                       ("Validation " ++ rule ++ " on email failed"))
             /\ (rule = "isEmail" \/ rule = "isLowercase")).
  { rewrite Hv. cbn. unfold validate. cbn.
    destruct (isEmail e).
    - rewrite bool_decide_false by exact Hne. exists "isLowercase". auto.
    - exists "isEmail". auto. }
  destruct Hf as (rule & Hf & Hrule).
  assert (Hin : ("email", ValidationFailed "email" rule
                            ("Validation " ++ rule ++ " on email failed"))
                ∈ validateRecord now User.schema c).
  { apply validateRecord_elem. exists User.emailAttribute.
    split; [apply email_declared|]. auto. }
  unfold create, vet.
  destruct (validateRecord now User.schema c) as [|x report] eqn:E.
  - inversion Hin.
  - exists (x :: report), rule. auto.
Qed.

End CreateProperties.

(** At instant 300 the task due at 200 is refused by [isFutureDate]; at
    instant 100 it is created with the status "pending". *)
Lemma create_task_dueDate_sample :
  (exists report,
     @Engine.create Samples.validator Index.relationships Samples.office
        300 Task.schema Samples.report = Engine.Fails (Engine.Invalid report)
     /\ ("dueDate", Schema.ValidationFailed "dueDate" "isFutureDate"
                      "Due date must be in the future") ∈ report)
  /\ (exists r s',
        @Engine.create Samples.validator Index.relationships Samples.office
           100 Task.schema Samples.report = Engine.Ok (r, s')
        /\ Engine.fieldsOf r !! "status" = Some (Schema.VString "pending")
        /\ Engine.fieldsOf r !! "dueDate" = Some (Schema.VDate (JS.DateAt 200))
        /\ Engine.id r = Engine.nextIdOf Samples.office "Task"
        /\ Engine.records s' !! ("Task", Engine.id r) = Some r).
Proof.
  split.
  - apply (proj1 (@create_task_dueDate Samples.validator Samples.office
                    300 Samples.report) 200); [vm_compute; reflexivity | lia].
  - apply (proj2 (@create_task_dueDate Samples.validator Samples.office
                    100 Samples.report) "Write the report" 200 1 1);
      first [ lia
            | vm_compute; reflexivity
            | apply (bool_decide_unpack _); vm_compute; exact I
            | vm_compute; lia ].
Defined.

(** In a store that holds alice@example.com, creating Alice@Example.com is
    refused by validation. *)
Lemma create_user_email_as_given_sample :
  Engine.fieldValue 100 User.emailAttribute Samples.alicia
    = Some (Schema.VString "Alice@Example.com")
  /\ exists report rule,
       @Engine.create Samples.validator Index.relationships Samples.office
          100 User.schema Samples.alicia = Engine.Fails (Engine.Invalid report)
       /\ ("email", Schema.ValidationFailed "email" rule
                      ("Validation " ++ rule ++ " on email failed")) ∈ report
       /\ (rule = "isEmail" \/ rule = "isLowercase").
Proof.
  apply (@create_user_email_as_given Samples.validator Index.relationships
           Samples.office 100 Samples.alicia "Alice@Example.com").
  - vm_compute. reflexivity.
  - vm_compute. discriminate.
Defined.

(** The same evaluation in full: validation reports the one violated rule,
    [isLowercase]; the same address in lower case is refused as a duplicate. *)
Example create_user_mixed_case_email :
  @Engine.create Samples.validator Index.relationships Samples.office
     100 User.schema Samples.alicia
  = Engine.Fails (Engine.Invalid
      [("email", Schema.ValidationFailed "email" "isLowercase"
                   "Validation isLowercase on email failed")])
  /\ @Engine.create Samples.validator Index.relationships Samples.office
       100 User.schema
       (<["email" := Schema.VString "alice@example.com"]> Samples.alicia)
     = Engine.Fails (Engine.Refused (Schema.DuplicateValue "email")).
Proof. split; vm_compute; reflexivity. Qed.

(** Four fields of [Samples.careless] violate their rules, and the report
    holds the four violations. *)
Example validateRecord_careless :
  @Engine.validateRecord Samples.validator 100 User.schema Samples.careless
  = [ ("username", Schema.ValidationFailed "username" "len"
                     "Validation len on username failed");
      ("email", Schema.ValidationFailed "email" "isLowercase"
                  "Validation isLowercase on email failed");
      ("password", Schema.ValidationFailed "password" "len"
                     "Validation len on password failed");
      ("firstName", Schema.ValidationFailed "firstName" "is"
                      "Validation is on firstName failed") ].
Proof. vm_compute. reflexivity. Qed.

(** ** Many-to-many membership *)

Section JoinTable.
Import Schema Index Engine.

Lemma insertPair_present (now : Z) (pair : Z * Z) (t : JoinTable) :
  is_Some (insertPair now pair t !! pair).
Proof.
  unfold insertPair. destruct (t !! pair) eqn:E.
  - rewrite E. eauto.
  - rewrite lookup_insert_eq. eauto.
Qed.

Lemma insertPair_again (now1 now2 : Z) (pair : Z * Z) (t : JoinTable) :
  insertPair now2 pair (insertPair now1 pair t) = insertPair now1 pair t.
Proof.
  destruct (insertPair_present now1 pair t) as [v Hv].
  unfold insertPair at 1. rewrite Hv. reflexivity.
Qed.

Lemma entriesFor_present (t : JoinTable) (pair : Z * Z) (v : Z) :
  t !! pair = Some v ->
  entriesFor t pair = [(pair, v)].
Proof.
  intros Hv. unfold entriesFor.
  apply Permutation_singleton_r.
  rewrite <- (insert_delete_id t pair v Hv) at 1.
  rewrite map_to_list_insert by apply lookup_delete_eq.
  rewrite filter_cons_True by reflexivity.
  apply Permutation_skip.
  assert (Hnone : filter (fun kv : Z * Z * Z => kv.1 = pair)
                    (map_to_list (base.delete pair t)) = []).
  { destruct (filter _ _) as [|[k w] rest] eqn:E; [reflexivity|].
    assert (Hin : (k, w) ∈ filter (fun kv : Z * Z * Z => kv.1 = pair)
                             (map_to_list (base.delete pair t)))
      by (rewrite E; apply list_elem_of_here).
    apply list_elem_of_filter in Hin as [Hk Hin].
    simpl in Hk. subst k. apply elem_of_map_to_list in Hin.
    rewrite lookup_delete_eq in Hin. discriminate. }
  rewrite Hnone. reflexivity.
Qed.

Lemma joinTable_addAssociation (s : Store) (now : Z) (through : string) (a b : Z) :
  joinTable (addAssociation s now through a b) through
  = insertPair now (a, b) (joinTable s through).
Proof.
  unfold joinTable at 1, addAssociation. cbn [joins].
  rewrite lookup_insert_eq. reflexivity.
Qed.

(** C5. Adding an association that is present changes nothing and is no
    error: the store after the second add is the store after the first, and
    the join table holds exactly one entry for the pair. *)
Theorem addAssociation_idempotent (s : Store) (now1 now2 : Z) (through : string)
    (a b : Z) :
  addAssociation (addAssociation s now1 through a b) now2 through a b
  = addAssociation s now1 through a b
  /\ length (entriesFor
               (joinTable
                  (addAssociation (addAssociation s now1 through a b)
                                  now2 through a b) through)
               (a, b)) = 1%nat
  /\ length (entriesFor (joinTable (addAssociation s now1 through a b) through)
                        (a, b)) = 1%nat.
Proof.
  assert (Hsame : addAssociation (addAssociation s now1 through a b)
                    now2 through a b
                  = addAssociation s now1 through a b).
  { unfold addAssociation at 1. rewrite joinTable_addAssociation.
    rewrite insertPair_again. unfold addAssociation. cbn [records nextId joins].
    rewrite insert_insert_eq. reflexivity. }
  assert (Hone : length (entriesFor
                           (joinTable (addAssociation s now1 through a b) through)
                           (a, b)) = 1%nat).
  { rewrite joinTable_addAssociation.
    destruct (insertPair_present now1 (a, b) (joinTable s through)) as [v Hv].
    rewrite (entriesFor_present _ _ v Hv). reflexivity. }
  rewrite Hsame. auto.
Qed.

End JoinTable.

Example addAssociation_twice :
  Engine.entriesFor
    (Engine.joinTable
       (Engine.addAssociation
          (Engine.addAssociation Samples.office 10 "TaskTags" 1 7)
          20 "TaskTags" 1 7) "TaskTags") (1, 7) = [((1, 7), 10)].
Proof. vm_compute. reflexivity. Qed.

(** ** Cascade on delete *)

Section CascadeProperties.
Import Schema Index Engine.
Variable rels : list Relationship.
Variable recs : gmap Node Rec.

Lemma edges_elem (n : Node) (r : Relationship) (c : Node) :
  (r, c) ∈ edges rels recs n <-> r ∈ rels /\ c ∈ childrenOf recs r n.
Proof.
  unfold edges. rewrite list_elem_of_bind. split.
  - intros (r' & Hin & Hr'). apply list_elem_of_bind in Hin as (c' & Hin & Hc').
    apply list_elem_of_singleton in Hin. injection Hin as -> ->. auto.
  - intros [Hr Hc]. exists r. split; [|exact Hr].
    apply list_elem_of_bind. exists c. split; [apply list_elem_of_here | exact Hc].
Qed.

Lemma childrenOf_stored (r : Relationship) (n c : Node) :
  c ∈ childrenOf recs r n -> is_Some (recs !! c).
Proof.
  unfold childrenOf. case_bool_decide; [|intros Hin; inversion Hin].
  intros Hin. apply list_elem_of_fmap in Hin as ([k v] & -> & Hin).
  apply list_elem_of_filter in Hin as [_ Hin].
  apply elem_of_map_to_list in Hin. simpl. eauto.
Qed.

Lemma childrenOf_spec (r : Relationship) (n c : Node) :
  c ∈ childrenOf recs r n
  <-> kind r = OneToMany /\ sourceEntity r = n.1 /\ c.1 = targetEntity r
      /\ exists rec, recs !! c = Some rec
                     /\ fieldsOf rec !! foreignKeyField r = Some (VInt n.2).
Proof.
  unfold childrenOf. case_bool_decide as Hk.
  - rewrite list_elem_of_fmap. split.
    + intros ([k v] & -> & Hin). apply list_elem_of_filter in Hin as [[Ht Hf] Hin].
      apply elem_of_map_to_list in Hin. simpl in *. destruct Hk. eauto 10.
    + intros (_ & _ & Ht & rec & Hrec & Hf). exists (c, rec). split; [reflexivity|].
      apply list_elem_of_filter. split; [split; assumption|].
      apply elem_of_map_to_list. exact Hrec.
  - split; [intros Hin; inversion Hin|]. intros (? & ? & _). tauto.
Qed.

(** *** Visiting a list of children *)

Lemma visitAll_Ok {A : Type} (f : A -> option (Result Error (list Op)))
    (xs : list A) (ops : list Op) :
  visitAll f xs = Some (Ok ops) ->
  forall x, x ∈ xs ->
    exists ops', f x = Some (Ok ops') /\ (forall o, o ∈ ops' -> o ∈ ops).
Proof.
  revert ops. induction xs as [|x0 xs IH]; intros ops Hv x Hin.
  - inversion Hin.
  - simpl in Hv. destruct (f x0) as [[ops0|e]|] eqn:E0; try discriminate.
    destruct (visitAll f xs) as [[ops1|e]|] eqn:E1; try discriminate.
    injection Hv as <-.
    apply elem_of_cons in Hin as [->|Hin].
    + exists ops0. split; [exact E0|]. intros o Ho. apply elem_of_app. auto.
    + destruct (IH ops1 eq_refl x Hin) as (ops' & Hx & Hsub).
      exists ops'. split; [exact Hx|]. intros o Ho. apply elem_of_app. auto.
Qed.

Lemma visitAll_Fails {A : Type} (f : A -> option (Result Error (list Op)))
    (xs : list A) (e : Error) :
  visitAll f xs = Some (Fails e) ->
  exists x, x ∈ xs /\ f x = Some (Fails e).
Proof.
  induction xs as [|x0 xs IH]; simpl; [discriminate|].
  destruct (f x0) as [[ops0|e0]|] eqn:E0; try discriminate.
  - destruct (visitAll f xs) as [[ops1|e1]|] eqn:E1; try discriminate.
    intros Hv. destruct (IH Hv) as (x & Hin & Hx).
    exists x. split; [apply list_elem_of_further; exact Hin | exact Hx].
  - intros [= <-]. exists x0. split; [apply list_elem_of_here | exact E0].
Qed.

Lemma visitAll_total {A : Type} (f : A -> option (Result Error (list Op)))
    (xs : list A) :
  (forall x, x ∈ xs -> is_Some (f x)) ->
  is_Some (visitAll f xs).
Proof.
  induction xs as [|x0 xs IH]; intros Hall; simpl; [eauto|].
  destruct (Hall x0 (list_elem_of_here _ _)) as [[ops0|e0] ->]; [|eauto].
  destruct IH as [[ops1|e1] ->]; eauto.
  intros x Hin. apply Hall. apply list_elem_of_further. exact Hin.
Qed.

Lemma visitAll_all_Ok {A : Type} (f : A -> option (Result Error (list Op)))
    (xs : list A) :
  (forall x, x ∈ xs -> exists ops, f x = Some (Ok ops)) ->
  exists ops, visitAll f xs = Some (Ok ops).
Proof.
  induction xs as [|x0 xs IH]; intros Hall; simpl; [eauto|].
  destruct (Hall x0 (list_elem_of_here _ _)) as [ops0 ->].
  destruct IH as [ops1 ->]; eauto.
  intros x Hin. apply Hall. apply list_elem_of_further. exact Hin.
Qed.

(** *** The visit terminates *)

Lemma NoDup_length_le_size (U : gset Node) (l : list Node) :
  NoDup l -> (forall x, x ∈ l -> x ∈ U) -> (length l <= size U)%nat.
Proof.
  intros Hnd Hsub. unfold size, set_size. simpl.
  apply submseteq_length. apply NoDup_submseteq; [exact Hnd|].
  intros x Hx. apply elem_of_elements. auto.
Qed.

(** With the path inside a finite set [U] that holds every record, the fuel
    that is left always covers the records not yet on the path. *)
Lemma cascade_total_in (U : gset Node) (fuel : nat) (path : list Node) (n : Node) :
  (forall c, is_Some (recs !! c) -> c ∈ U) ->
  NoDup path ->
  (forall x, x ∈ path -> x ∈ U) ->
  n ∈ U ->
  (size U < fuel + length path)%nat ->
  is_Some (cascade rels recs fuel path n).
Proof.
  intros HU. revert path n.
  induction fuel as [|fuel IH]; intros path n Hnd Hsub Hn Hsize.
  - pose proof (NoDup_length_le_size U path Hnd Hsub). simpl in Hsize. lia.
  - simpl. case_bool_decide as Hin; [eauto|].
    destruct (visitAll_total (visitChild (cascade rels recs fuel) recs path n)
                (edges rels recs n)) as [[ops|e] Hv].
    + intros [r c] He. apply edges_elem in He as [_ Hc].
      unfold visitChild. cbn [fst snd].
      destruct (onDelete r); [|eauto|eauto].
      apply IH.
      * apply NoDup_cons. auto.
      * intros x Hx. apply elem_of_cons in Hx as [->|Hx]; auto.
      * apply HU. eapply childrenOf_stored. exact Hc.
      * simpl. lia.
    + rewrite Hv. eauto.
    + rewrite Hv. eauto.
Qed.

Lemma cascadeOnDelete_total (n : Node) :
  is_Some (cascadeOnDelete rels recs n).
Proof.
  unfold cascadeOnDelete.
  apply (cascade_total_in ({[n]} ∪ dom recs)).
  - intros c Hc. apply elem_of_union_r. apply elem_of_dom. exact Hc.
  - apply NoDup_nil_2.
  - intros x Hx. inversion Hx.
  - apply elem_of_union_l. apply elem_of_singleton. reflexivity.
  - simpl. rewrite Nat.add_0_r.
    assert (size ({[n]} ∪ dom recs : gset Node) <= 1 + size recs)%nat; [|lia].
    rewrite size_union_alt, size_singleton.
    apply Nat.add_le_mono_l. rewrite <- (size_dom (D := gset Node) recs).
    apply subseteq_size. intros x Hx.
    apply elem_of_difference in Hx as [Hx _]. exact Hx.
Qed.

(** *** A successful visit deletes every descendant *)

Lemma cascade_unfold (fuel : nat) (path : list Node) (n : Node) :
  cascade rels recs (S fuel) path n
  = if bool_decide (n ∈ path)
    then Some (Fails (CascadeCycle (reverse (n :: path))))
    else match visitAll (visitChild (cascade rels recs fuel) recs path n)
                       (edges rels recs n) with
         | Some (Ok ops) => Some (Ok (ops ++ [DeleteOp n])%list)
         | other => other
         end.
Proof. reflexivity. Qed.

(** What a successful visit of [n] says about each child it cascades to. *)
Lemma cascade_Ok_child (fuel : nat) (path : list Node) (n c : Node)
    (ops : list Op) :
  cascade rels recs fuel path n = Some (Ok ops) ->
  cascadesTo rels recs n c ->
  exists fuel' ops',
    fuel = S fuel'
    /\ (n ∉ path)
    /\ cascade rels recs fuel' (n :: path) c = Some (Ok ops')
    /\ (forall o, o ∈ ops' -> o ∈ ops).
Proof.
  destruct fuel as [|fuel]; [discriminate|].
  rewrite cascade_unfold. case_bool_decide as Hin; [discriminate|].
  destruct (visitAll _ _) as [[ops0|e]|] eqn:Hv; try discriminate.
  intros [= <-] (r & Hr & Hpol & Hc).
  destruct (visitAll_Ok _ _ _ Hv (r, c)) as (ops' & Hvisit & Hsub).
  { apply edges_elem. auto. }
  unfold visitChild in Hvisit. simpl in Hvisit. rewrite Hpol in Hvisit.
  exists fuel, ops'. repeat split; try assumption.
  intros o Ho. apply elem_of_app. left. auto.
Qed.

Lemma cascade_Ok_self (fuel : nat) (path : list Node) (n : Node) (ops : list Op) :
  cascade rels recs fuel path n = Some (Ok ops) ->
  DeleteOp n ∈ ops /\ n ∉ path.
Proof.
  destruct fuel as [|fuel]; [discriminate|].
  rewrite cascade_unfold. case_bool_decide as Hin; [discriminate|].
  destruct (visitAll _ _) as [[ops0|e]|] eqn:Hv; try discriminate.
  intros [= <-]. split; [|exact Hin].
  apply elem_of_app. right. apply list_elem_of_here.
Qed.

Lemma cascade_Ok_descendants (fuel : nat) (path : list Node) (n d : Node)
    (ops : list Op) :
  cascade rels recs fuel path n = Some (Ok ops) ->
  rtc (cascadesTo rels recs) n d ->
  DeleteOp d ∈ ops /\ d ∉ path.
Proof.
  intros Hok Hrtc. revert fuel path ops Hok.
  induction Hrtc as [n|n c d Hnc Hcd IH]; intros fuel path ops Hok.
  - eapply cascade_Ok_self. exact Hok.
  - destruct (cascade_Ok_child _ _ _ _ _ Hok Hnc)
      as (fuel' & ops' & -> & Hn & Hc & Hsub).
    destruct (IH _ _ _ Hc) as [Hd Hpath]. split; [auto|].
    intros Hin. apply Hpath. apply list_elem_of_further. exact Hin.
Qed.

(** Nothing is inserted by the side effects: a record that is gone stays
    gone. *)
Lemma applyOps_None (ops : list Op) (m : gmap Node Rec) (d : Node) :
  m !! d = None -> applyOps m ops !! d = None.
Proof.
  unfold applyOps. revert m. induction ops as [|op ops IH]; intros m Hm; simpl.
  - exact Hm.
  - apply IH. destruct op as [k|k field]; simpl.
    + destruct (decide (k = d)) as [->|Hne].
      * apply lookup_delete_eq.
      * rewrite lookup_delete_ne by exact Hne. exact Hm.
    + apply lookup_alter_None. exact Hm.
Qed.

Lemma applyOps_deleted (ops : list Op) (m : gmap Node Rec) (d : Node) :
  DeleteOp d ∈ ops -> applyOps m ops !! d = None.
Proof.
  revert m. induction ops as [|op ops IH]; intros m Hin.
  - inversion Hin.
  - apply elem_of_cons in Hin as [<-|Hin].
    + change (applyOps (base.delete d m) ops !! d = None).
      apply applyOps_None. apply lookup_delete_eq.
    + apply (IH (applyOp m op) Hin).
Qed.

(** *** A cycle is reported *)

(** A successful visit of [n] has met no record twice: no record that the
    delete cascades to from [n] is [n] itself. *)
Lemma cascade_Ok_acyclic (fuel : nat) (path : list Node) (n : Node)
    (ops : list Op) :
  cascade rels recs fuel path n = Some (Ok ops) ->
  ~ tc (cascadesTo rels recs) n n.
Proof.
  intros Hok Hcycle.
  assert (Hstep : exists c, cascadesTo rels recs n c
                            /\ rtc (cascadesTo rels recs) c n).
  { inversion Hcycle as [? ? Hnc|? c ? Hnc Hcn]; subst.
    - exists n. split; [exact Hnc | apply rtc_refl].
    - exists c. split; [exact Hnc | apply tc_rtc; exact Hcn]. }
  destruct Hstep as (c & Hnc & Hcn).
  destruct (cascade_Ok_child _ _ _ _ _ Hok Hnc)
    as (fuel' & ops' & -> & Hn & Hc & Hsub).
  destruct (cascade_Ok_descendants _ _ _ _ _ Hc Hcn) as [_ Hnotin].
  apply Hnotin. apply list_elem_of_here.
Qed.

(** A successful visit of [n] holds a successful visit of each of its
    descendants. *)
Lemma cascade_Ok_reaches (fuel : nat) (path : list Node) (n d : Node)
    (ops : list Op) :
  cascade rels recs fuel path n = Some (Ok ops) ->
  rtc (cascadesTo rels recs) n d ->
  exists fuel' path' ops', cascade rels recs fuel' path' d = Some (Ok ops').
Proof.
  intros Hok Hrtc. revert fuel path ops Hok.
  induction Hrtc as [n|n c d Hnc Hcd IH]; intros fuel path ops Hok.
  - eauto.
  - destruct (cascade_Ok_child _ _ _ _ _ Hok Hnc)
      as (fuel' & ops' & -> & Hn & Hc & Hsub).
    eapply IH. exact Hc.
Qed.

(** Without a Restrict relationship the one failure is a cycle, and the path
    it carries ends on a record it already holds. *)
Lemma cascade_Fails_cycle (fuel : nat) (path : list Node) (n : Node) (e : Error) :
  (forall r, r ∈ rels -> onDelete r <> Restrict) ->
  cascade rels recs fuel path n = Some (Fails e) ->
  exists p x, e = CascadeCycle (p ++ [x])%list /\ x ∈ p.
Proof.
  intros Hpol. revert path n.
  induction fuel as [|fuel IH]; intros path n; [discriminate|].
  rewrite cascade_unfold. case_bool_decide as Hin.
  - intros [= <-]. exists (reverse path), n.
    rewrite reverse_cons. split; [reflexivity|].
    apply elem_of_reverse. exact Hin.
  - destruct (visitAll _ _) as [[ops0|e0]|] eqn:Hv; try discriminate.
    intros [= <-].
    apply visitAll_Fails in Hv as ([r c] & He & Hvisit).
    apply edges_elem in He as [Hr _].
    unfold visitChild in Hvisit. simpl in Hvisit.
    specialize (Hpol r Hr).
    destruct (onDelete r); [|congruence|discriminate].
    eapply IH. exact Hvisit.
Qed.

End CascadeProperties.

Section DeleteProperties.
Import Schema Index Engine.

(** *** The relationships of index.ts *)

Lemma Index_children_are_tasks (recs : gmap Node Rec) (r : Relationship)
    (n c : Node) :
  r ∈ relationships ->
  c ∈ childrenOf recs r n ->
  c.1 = "Task" /\ n.1 <> "Task" /\ onDelete r = Cascade.
Proof.
  intros Hr Hc. apply childrenOf_spec in Hc as (Hk & Hs & Ht & _).
  unfold relationships in Hr.
  repeat (apply elem_of_cons in Hr as [->|Hr]);
    [ | | discriminate Hk | discriminate Hk | inversion Hr ];
    simpl in *; rewrite Ht, <- Hs; repeat split; discriminate.
Qed.

Lemma Index_task_is_leaf (recs : gmap Node Rec) (n : Node) :
  n.1 = "Task" -> edges relationships recs n = [].
Proof.
  intros Hn. destruct (edges relationships recs n) as [|[r c] es] eqn:E;
    [reflexivity|].
  assert (Hin : (r, c) ∈ edges relationships recs n)
    by (rewrite E; apply list_elem_of_here).
  apply edges_elem in Hin as [Hr Hc].
  destruct (Index_children_are_tasks recs r n c Hr Hc) as (_ & Hne & _).
  contradiction.
Qed.

(** No chain of cascades comes back to where it started: users and
    projects have tasks, tasks have no children. *)
Lemma Index_cascade_succeeds (recs : gmap Node Rec) (n : Node) :
  exists ops, cascadeOnDelete relationships recs n = Some (Ok ops).
Proof.
  unfold cascadeOnDelete. change (2 + size recs)%nat with (S (S (size recs))).
  rewrite cascade_unfold. rewrite bool_decide_false by (intros Hin; inversion Hin).
  destruct (visitAll_all_Ok
              (visitChild (cascade relationships recs (S (size recs))) recs [] n)
              (edges relationships recs n)) as [ops ->]; [|eauto].
  intros [r c] He. apply edges_elem in He as [Hr Hc].
  destruct (Index_children_are_tasks recs r n c Hr Hc) as (Hc1 & Hn1 & Hpol).
  unfold visitChild. cbn [fst snd]. rewrite Hpol. rewrite cascade_unfold.
  rewrite bool_decide_false.
  - rewrite (Index_task_is_leaf recs c Hc1). simpl. eauto.
  - intros Hin. apply list_elem_of_singleton in Hin. subst c. congruence.
Qed.

Lemma delete_total (rels : list Relationship) (s : Store)
    (entityName : string) (i : Z) :
  is_Some (delete rels s entityName i).
Proof.
  unfold delete. destruct (records s !! (entityName, i)); [|eauto].
  destruct (cascadeOnDelete_total rels (records s) (entityName, i))
    as [[ops|e] ->]; eauto.
Qed.

(** C3. Deleting a record terminates on every store and every set of
    relationships. When it succeeds, every record the delete cascades to,
    at any depth, is among the deleted and is gone from the store. When a
    chain of cascades from the record comes back to a record of the chain,
    the delete fails with CascadeCycle, whose path ends on the record met
    twice. With the relationships of index.ts the delete of a stored record
    always succeeds, and the tasks of a deleted user and of a deleted project
    are gone. *)
Theorem delete_cascades (rels : list Relationship) (s : Store)
    (entityName : string) (i : Z) :
  is_Some (delete rels s entityName i)
  /\ (forall ops s',
        delete rels s entityName i = Some (Ok (ops, s')) ->
        forall d, rtc (cascadesTo rels (records s)) (entityName, i) d ->
                  DeleteOp d ∈ ops /\ records s' !! d = None)
  /\ ((forall r, r ∈ rels -> onDelete r <> Restrict) ->
      is_Some (records s !! (entityName, i)) ->
      forall c, rtc (cascadesTo rels (records s)) (entityName, i) c ->
                tc (cascadesTo rels (records s)) c c ->
                exists p x,
                  delete rels s entityName i
                  = Some (Fails (CascadeCycle (p ++ [x])%list))
                  /\ x ∈ p)
  /\ (is_Some (records s !! (entityName, i)) ->
      exists ops s',
        delete relationships s entityName i = Some (Ok (ops, s'))
        /\ records s' !! (entityName, i) = None
        /\ (forall k task,
              records s !! ("Task", k) = Some task ->
              (entityName = "User" /\ fieldsOf task !! "userId" = Some (VInt i))
              \/ (entityName = "Project"
                  /\ fieldsOf task !! "projectId" = Some (VInt i)) ->
              records s' !! ("Task", k) = None)).
Proof.
  split; [|split; [|split]].
  - apply delete_total.
  - intros ops s' Hdel d Hd. unfold delete in Hdel.
    destruct (records s !! (entityName, i)); [|discriminate].
    destruct (cascadeOnDelete rels (records s) (entityName, i))
      as [[ops0|e]|] eqn:Hc; try discriminate.
    injection Hdel as <- <-. cbn [records].
    destruct (cascade_Ok_descendants _ _ _ _ _ _ _ Hc Hd) as [Hin _].
    split; [exact Hin | apply applyOps_deleted; exact Hin].
  - intros Hpol [rec Hrec] c Hreach Hcycle. unfold delete. rewrite Hrec.
    destruct (cascadeOnDelete_total rels (records s) (entityName, i))
      as [[ops|e] Hc]; rewrite Hc.
    + exfalso.
      destruct (cascade_Ok_reaches _ _ _ _ _ _ _ Hc Hreach)
        as (fuel' & path' & ops' & Hc').
      exact (cascade_Ok_acyclic _ _ _ _ _ _ Hc' Hcycle).
    + destruct (cascade_Fails_cycle _ _ _ _ _ _ Hpol Hc) as (p & x & -> & Hx).
      eauto.
  - intros [rec Hrec]. unfold delete. rewrite Hrec.
    destruct (Index_cascade_succeeds (records s) (entityName, i)) as [ops Hc].
    rewrite Hc. eexists. eexists. split; [reflexivity|]. cbn [records].
    split.
    + apply applyOps_deleted.
      apply (cascade_Ok_descendants _ _ _ _ _ _ _ Hc). apply rtc_refl.
    + intros k task Htask Hfk. apply applyOps_deleted.
      apply (cascade_Ok_descendants _ _ _ _ _ _ _ Hc). apply rtc_once.
      destruct Hfk as [[-> Hfk]|[-> Hfk]].
      * exists (hasMany "User" "Task" "userId" Cascade).
        split; [declared|]. split; [reflexivity|].
        apply childrenOf_spec. repeat split. eauto.
      * exists (hasMany "Project" "Task" "projectId" Cascade).
        split; [unfold relationships; declared|]. split; [reflexivity|].
        apply childrenOf_spec. repeat split. eauto.
Qed.

End DeleteProperties.

(** Two tasks that are each other's parent: the delete of one reports the
    cycle. The user of the busy office: the delete removes both tasks. *)
Lemma delete_cascades_sample :
  (exists p x,
     Engine.delete Samples.subtasks Samples.knot "Task" 1
     = Some (Engine.Fails (Schema.CascadeCycle (p ++ [x])%list))
     /\ x ∈ p)
  /\ (exists ops s',
        Engine.delete Index.relationships Samples.busyOffice "User" 1
        = Some (Engine.Ok (ops, s'))
        /\ Engine.records s' !! ("User", 1) = None
        /\ (forall k task,
              Engine.records Samples.busyOffice !! ("Task", k) = Some task ->
              ("User" = "User"
               /\ Engine.fieldsOf task !! "userId" = Some (Schema.VInt 1))
              \/ ("User" = "Project"
                  /\ Engine.fieldsOf task !! "projectId" = Some (Schema.VInt 1)) ->
              Engine.records s' !! ("Task", k) = None)).
Proof.
  split.
  - refine (proj1 (proj2 (proj2
              (delete_cascades Samples.subtasks Samples.knot "Task" 1)))
              _ _ ("Task", 1) _ _).
    + intros r Hr. apply list_elem_of_singleton in Hr. subst r. discriminate.
    + apply (bool_decide_unpack _). vm_compute. exact I.
    + apply rtc_refl.
    + apply (tc_l _ _ ("Task", 2)).
      * exists (Index.hasMany "Task" "Task" "parentId" Index.Cascade).
        split; [apply list_elem_of_here|]. split; [reflexivity|].
        vm_compute. apply list_elem_of_here.
      * apply tc_once.
        exists (Index.hasMany "Task" "Task" "parentId" Index.Cascade).
        split; [apply list_elem_of_here|]. split; [reflexivity|].
        vm_compute. apply list_elem_of_here.
  - apply (proj2 (proj2 (proj2
             (delete_cascades Index.relationships Samples.busyOffice
                "User" 1)))).
    apply (bool_decide_unpack _). vm_compute. exact I.
Defined.

Example delete_knot :
  Engine.delete Samples.subtasks Samples.knot "Task" 1
  = Some (Engine.Fails
            (Schema.CascadeCycle [("Task", 1); ("Task", 2); ("Task", 1)])).
Proof. vm_compute. reflexivity. Qed.

Example delete_busy_user :
  match Engine.delete Index.relationships Samples.busyOffice "User" 1 with
  | Some (Engine.Ok (ops, s')) =>
      ops = [Engine.DeleteOp ("Task", 1); Engine.DeleteOp ("Task", 2);
             Engine.DeleteOp ("User", 1)]
      /\ (map_to_list (Engine.records s')).*1 = [("Project", 1)]
  | _ => False
  end.
Proof. vm_compute. split; reflexivity. Qed.

(** ** Surrogate ids over the lifetime of the store *)

Section Identifiers.
Import Schema Index Engine.
Context `{!ValidatorJS}.
Variable rels : list Relationship.

Lemma createdIds_app (e : string) (evs1 evs2 : list Event) :
  createdIds e (evs1 ++ evs2) = (createdIds e evs1 ++ createdIds e evs2)%list.
Proof. unfold createdIds. rewrite filter_app, fmap_app. reflexivity. Qed.

Lemma createdIds_eventOf (e : string) (ops : list Op) :
  createdIds e (map eventOf ops) = [].
Proof.
  unfold createdIds. induction ops as [|op ops IH]; [reflexivity|].
  simpl. rewrite filter_cons_False; [exact IH|].
  intros [_ Hc]. destruct op; discriminate.
Qed.

Lemma applyOps_Some (ops : list Op) (m : gmap Node Rec) (k : Node) :
  is_Some (applyOps m ops !! k) -> is_Some (m !! k).
Proof.
  intros Hs. destruct (m !! k) eqn:E; [eauto|].
  rewrite (applyOps_None ops m k E) in Hs. exact Hs.
Qed.

(** [create] hands out the next id of the kind and moves the counter past
    it; the counters of the other kinds stay. *)
Lemma create_Ok (s s' : Store) (now : Z) (schema : EntitySchema)
    (c : Candidate) (r : Rec) :
  create rels s now schema c = Ok (r, s') ->
  id r = nextIdOf s (entityName schema)
  /\ nextId s' = <[entityName schema := id r + 1]> (nextId s)
  /\ records s' = <[(entityName schema, id r) := r]> (records s).
Proof.
  unfold create. destruct (vet rels s now schema None c); [|discriminate].
  intros [= <- <-]. auto.
Qed.

Lemma update_Ok (s s' : Store) (now : Z) (schema : EntitySchema) (i : Z)
    (c : Candidate) (r : Rec) :
  update rels s now schema i c = Ok (r, s') ->
  nextId s' = nextId s
  /\ is_Some (records s !! (entityName schema, i))
  /\ records s' = <[(entityName schema, i) := r]> (records s).
Proof.
  unfold update. destruct (records s !! (entityName schema, i)); [|discriminate].
  destruct (vet rels s now schema (Some i) _); [|discriminate].
  intros [= <- <-]. eauto.
Qed.

Lemma delete_Ok (s s' : Store) (entityName : string) (i : Z) (ops : list Op) :
  delete rels s entityName i = Some (Ok (ops, s')) ->
  nextId s' = nextId s /\ records s' = applyOps (records s) ops.
Proof.
  unfold delete. destruct (records s !! (entityName, i)); [|discriminate].
  destruct (cascadeOnDelete rels (records s) (entityName, i)) as [[ops0|e]|];
    try discriminate.
  intros [= <- <-]. auto.
Qed.

Lemma step_total (s : Store) (cmd : Command) : is_Some (step rels s cmd).
Proof.
  destruct cmd as [now schema c|now schema i c|entityName i| |]; simpl; eauto.
  - destruct (create rels s now schema c) as [[r s']|e]; eauto.
  - destruct (update rels s now schema i c) as [[r s']|e]; eauto.
  - destruct (delete_total rels s entityName i) as [[[ops s']|e] ->];
      eauto.
Qed.

(** One command creates at most one record, with the next id of its kind. *)
Lemma step_ids (s s' : Store) (cmd : Command) (evs : list Event) (e : string) :
  step rels s cmd = Some (s', evs) ->
  (createdIds e evs = [] /\ nextIdOf s' e = nextIdOf s e)
  \/ (createdIds e evs = [nextIdOf s e] /\ nextIdOf s' e = nextIdOf s e + 1).
Proof.
  destruct cmd as [now schema c|now schema i c|entityName i|now through a b|through a b];
    simpl.
  - destruct (create rels s now schema c) as [[r s1]|f] eqn:E.
    + intros [= <- <-]. apply create_Ok in E as (Hid & Hnext & _).
      unfold createdIds, nextIdOf. rewrite Hnext.
      destruct (decide (entityName schema = e)) as [<-|Hne].
      * right. rewrite filter_cons_True by (split; reflexivity).
        rewrite lookup_insert_eq. simpl. rewrite Hid. auto.
      * left. rewrite filter_cons_False by (intros [? _]; contradiction).
        rewrite lookup_insert_ne by exact Hne. auto.
    + intros [= <- <-]. left. auto.
  - destruct (update rels s now schema i c) as [[r s1]|f] eqn:E.
    + intros [= <- <-]. apply update_Ok in E as (Hnext & _ & _).
      left. unfold nextIdOf. rewrite Hnext. split; [|reflexivity].
      unfold createdIds. rewrite filter_cons_False; [reflexivity|].
      intros [_ Hc]. discriminate.
    + intros [= <- <-]. left. auto.
  - destruct (delete rels s entityName i) as [[[ops s1]|f]|] eqn:E; try discriminate.
    + intros [= <- <-]. apply delete_Ok in E as (Hnext & _).
      left. unfold nextIdOf. rewrite Hnext. split; [|reflexivity].
      apply createdIds_eventOf.
    + intros [= <- <-]. left. auto.
  - intros [= <- <-]. left. auto.
  - intros [= <- <-]. left. auto.
Qed.

Lemma step_idsBelowNext (s s' : Store) (cmd : Command) (evs : list Event) :
  step rels s cmd = Some (s', evs) ->
  idsBelowNext s -> idsBelowNext s'.
Proof.
  unfold idsBelowNext.
  destruct cmd as [now schema c|now schema i c|entityName i|now through a b|through a b];
    simpl.
  - destruct (create rels s now schema c) as [[r s1]|f] eqn:E.
    + intros [= <- <-] Hinv e i. apply create_Ok in E as (Hid & Hnext & Hrecs).
      unfold nextIdOf in *. rewrite Hnext, Hrecs.
      destruct (decide (entityName schema = e)) as [<-|Hne].
      * rewrite lookup_insert_eq. simpl.
        destruct (decide (id r = i)) as [<-|Hi]; [lia|].
        rewrite lookup_insert_ne by congruence.
        intros Hs. specialize (Hinv _ _ Hs). lia.
      * rewrite lookup_insert_ne by congruence.
        rewrite lookup_insert_ne by exact Hne. apply Hinv.
    + intros [= <- <-]. auto.
  - destruct (update rels s now schema i c) as [[r s1]|f] eqn:E.
    + intros [= <- <-] Hinv e k. apply update_Ok in E as (Hnext & Hold & Hrecs).
      unfold nextIdOf in *. rewrite Hnext, Hrecs.
      destruct (decide ((entityName schema, i) = (e, k))) as [[= <- <-]|Hne].
      * intros _. apply Hinv. exact Hold.
      * rewrite lookup_insert_ne by exact Hne. apply Hinv.
    + intros [= <- <-]. auto.
  - destruct (delete rels s entityName i) as [[[ops s1]|f]|] eqn:E; try discriminate.
    + intros [= <- <-] Hinv e k. apply delete_Ok in E as (Hnext & Hrecs).
      unfold nextIdOf in *. rewrite Hnext, Hrecs.
      intros Hs. apply Hinv. eapply applyOps_Some. exact Hs.
    + intros [= <- <-]. auto.
  - intros [= <- <-]. auto.
  - intros [= <- <-]. auto.
Qed.

Lemma run_ids (cmds : list Command) (s s' : Store) (evs : list Event) (e : string) :
  run rels s cmds = Some (s', evs) ->
  nextIdOf s e <= nextIdOf s' e
  /\ Forall (fun i => nextIdOf s e <= i < nextIdOf s' e) (createdIds e evs)
  /\ StronglySorted Z.lt (createdIds e evs).
Proof.
  revert s s' evs. induction cmds as [|cmd cmds IH]; intros s s' evs; simpl.
  - intros [= <- <-]. repeat split; [lia | constructor | constructor].
  - destruct (step rels s cmd) as [[s1 evs1]|] eqn:Hstep; [|discriminate].
    destruct (run rels s1 cmds) as [[s2 evs2]|] eqn:Hrun; [|discriminate].
    intros [= <- <-]. destruct (IH _ _ _ Hrun) as (Hle & Hall & Hsorted).
    rewrite createdIds_app.
    destruct (step_ids _ _ _ _ e Hstep) as [[-> Hn]|[-> Hn]]; rewrite Hn in *.
    + simpl. auto.
    + repeat split; [lia| |].
      * apply Forall_app. split.
        -- constructor; [lia | constructor].
        -- eapply Forall_impl; [exact Hall|]. simpl. intros i Hi. lia.
      * simpl. constructor; [exact Hsorted|].
        eapply Forall_impl; [exact Hall|]. simpl. intros i Hi. lia.
Qed.

Lemma run_total (cmds : list Command) (s : Store) : is_Some (run rels s cmds).
Proof.
  revert s. induction cmds as [|cmd cmds IH]; intros s; simpl; [eauto|].
  destruct (step_total s cmd) as [[s1 evs1] ->].
  destruct (IH s1) as [[s2 evs2] ->]. eauto.
Qed.

Lemma run_idsBelowNext (cmds : list Command) (s s' : Store) (evs : list Event) :
  run rels s cmds = Some (s', evs) ->
  idsBelowNext s -> idsBelowNext s'.
Proof.
  revert s s' evs. induction cmds as [|cmd cmds IH]; intros s s' evs; simpl.
  - intros [= <- <-]. auto.
  - destruct (step rels s cmd) as [[s1 evs1]|] eqn:Hstep; [|discriminate].
    destruct (run rels s1 cmds) as [[s2 evs2]|] eqn:Hrun; [|discriminate].
    intros [= <- <-] Hinv. eapply IH; [exact Hrun|].
    eapply step_idsBelowNext; eauto.
Qed.

Lemma StronglySorted_lt_NoDup (l : list Z) : StronglySorted Z.lt l -> NoDup l.
Proof.
  induction 1 as [|x l Hs IH Hall]; constructor; [|exact IH].
  intros Hin. rewrite Forall_forall in Hall. specialize (Hall x Hin). lia.
Qed.

(** C9. Whatever commands the store runs from its creation, creates,
    updates and deletes in any order, every command returns, and the ids
    that [create] assigned within one entity kind, taken in the order they
    were assigned, increase strictly: no id is assigned twice, whether or
    not the record that held it was deleted since. Every stored record, and
    every id ever assigned, lies below the next id of its kind. *)
Theorem ids_monotonic_never_reused (cmds : list Command) :
  exists s evs,
    run rels Engine.empty cmds = Some (s, evs)
    /\ idsBelowNext s
    /\ forall e,
         StronglySorted Z.lt (createdIds e evs)
         /\ NoDup (createdIds e evs)
         /\ Forall (fun i => 1 <= i < nextIdOf s e) (createdIds e evs).
Proof.
  destruct (run_total cmds Engine.empty) as [[s evs] Hrun].
  exists s, evs. split; [exact Hrun|]. split.
  - eapply run_idsBelowNext; [exact Hrun|].
    intros e i [r Hr]. simpl in Hr. rewrite lookup_empty in Hr. discriminate.
  - intros e. destruct (run_ids _ _ _ _ e Hrun) as (_ & Hall & Hsorted).
    split; [exact Hsorted|]. split; [apply StronglySorted_lt_NoDup; exact Hsorted|].
    exact Hall.
Qed.

End Identifiers.

(** A user is created, deleted, and another is created: the second user
    gets the id 2. *)
Example ids_after_delete :
  match @Engine.run Samples.validator Index.relationships Engine.empty
          [ Engine.Create 10 User.schema Samples.alice;
            Engine.Delete "User" 1;
            Engine.Create 20 User.schema Samples.alice ] with
  | Some (s, evs) =>
      Engine.createdIds "User" evs = [1; 2]
      /\ (map_to_list (Engine.records s)).*1 = [("User", 2)]
  | None => False
  end.
Proof. vm_compute. split; reflexivity. Qed.

(** ** Further properties of the models *)

Section ModelProperties.
Import JS Schema Engine.
Context `{!ValidatorJS}.

(** A task that is overdue at an instant has a due date that [isFutureDate]
    rejects at that instant, and a due date that [isFutureDate] accepts is
    not overdue. *)
Theorem isOverdue_excludes_future (now : Z) (this : Task.t) :
  (Task.isOverdue now this = true ->
   Task.isFutureDate now (Task.dueDate this)
   = Some "Due date must be in the future")
  /\ (Task.isFutureDate now (Task.dueDate this) = None ->
      Task.isOverdue now this = false).
Proof.
  unfold Task.isOverdue, Task.isFutureDate, new_Date.
  destruct (Task.dueDate this) as [|due]; simpl.
  - split; [discriminate | reflexivity].
  - destruct (due <? now) eqn:Hlt; destruct (due <=? now) eqn:Hle;
      try lia; simpl; split; intros; try discriminate; try reflexivity.
Qed.

Lemma chars_length (s : string) : length (chars s) = String.length s.
Proof. unfold chars. induction s as [|c s IH]; simpl; congruence. Qed.

(** A default value of the models satisfies the rules of its own field:
    the statuses "pending" and "medium" are among the allowed ones and the
    color "#3498db" matches the color pattern. *)
Theorem defaults_are_valid (now : Z) :
  Forall (fun f => forall v, defaultValue f = Some (Literal v) ->
                   Forall (fun r => holds now r v = true) (Schema.validate f))
         (fields Task.schema ++ fields User.schema ++ fields Tag.schema)%list.
Proof.
  repeat (apply Forall_cons_2;
          [ intros v Hv; try discriminate Hv; injection Hv as <-;
            repeat constructor | ]).
  apply Forall_nil_2.
Qed.


End ModelProperties.


(** ** The methods and validators of the models, further *)

Section TaskOverTime.
Import JS Schema Engine.
Context `{!ValidatorJS}.

(** A task that is overdue stays overdue as time passes; a task whose
    progress reads "100%" is overdue at no instant; at the very instant it
    is due a task is not overdue yet. *)
Theorem isOverdue_over_time (now1 now2 : Z) (this : Task.t) :
  (now1 <= now2 -> Task.isOverdue now1 this = true ->
   Task.isOverdue now2 this = true)
  /\ (Task.getProgress this = "100%" -> Task.isOverdue now1 this = false)
  /\ (forall due, Task.dueDate this = DateAt due ->
        Task.isOverdue due this = false).
Proof.
  unfold Task.isOverdue, Task.getProgress, new_Date.
  split; [|split].
  - intros Hle. destruct (Task.dueDate this) as [|due]; simpl; [discriminate|].
    destruct (due <? now1) eqn:E1; simpl; [|discriminate].
    assert ((due <? now2) = true) as -> by lia. simpl. auto.
  - destruct (String.eqb (Task.status this) "completed").
    + intros _. rewrite andb_false_r. reflexivity.
    + destruct (String.eqb (Task.status this) "in_progress"); [discriminate|].
      destruct (String.eqb (Task.status this) "cancelled"); discriminate.
  - intros due ->. simpl. rewrite Z.ltb_irrefl. reflexivity.
Qed.


End TaskOverTime.

Section FullName.
Import Schema.

Lemma space_is_no_letter : isLetter " "%char = false.
Proof. reflexivity. Qed.

(** Two names joined by a space are told apart when the first ones hold
    letters only. *)
Lemma join_names_inj (a a' b b' : string) :
  forallb isLetter (chars a) = true ->
  forallb isLetter (chars a') = true ->
  a ++ " " ++ b = a' ++ " " ++ b' ->
  a = a' /\ b = b'.
Proof.
  revert a'. induction a as [|c a IH]; intros [|c' a'] Ha Ha' Heq; simpl in *.
  - injection Heq as Hb. subst. auto.
  - injection Heq as Hc _. subst c'. rewrite space_is_no_letter in Ha'.
    discriminate.
  - injection Heq as Hc _. subst c. rewrite space_is_no_letter in Ha.
    discriminate.
  - injection Heq as Hc Heq. subst c'.
    apply andb_prop in Ha as [_ Ha]. apply andb_prop in Ha' as [_ Ha'].
    destruct (IH a' Ha Ha' Heq) as [-> ->]. auto.
Qed.

(** For users whose first names pass the [is: /^[a-zA-Z]+$/] rule of the
    model, the full name determines the first and the last name. Without
    the rule it does not: "Mary Ann" "Lee" and "Mary" "Ann Lee" have the same
    full name. *)
Theorem getFullName_determines_names :
  (forall u1 u2 : User.t,
     test LettersOnly (User.firstName u1) = true ->
     test LettersOnly (User.firstName u2) = true ->
     User.getFullName u1 = User.getFullName u2 ->
     User.firstName u1 = User.firstName u2
     /\ User.lastName u1 = User.lastName u2)
  /\ (exists u1 u2 : User.t,
        User.getFullName u1 = User.getFullName u2
        /\ User.firstName u1 <> User.firstName u2).
Proof.
  split.
  - intros u1 u2 H1 H2 Heq. unfold test in H1, H2.
    apply andb_prop in H1 as [_ H1]. apply andb_prop in H2 as [_ H2].
    exact (join_names_inj _ _ _ _ H1 H2 Heq).
  - exists {| User.id := 1; User.username := "mary"; User.email := "";
              User.password := ""; User.firstName := "Mary Ann";
              User.lastName := "Lee" |},
           {| User.id := 2; User.username := "mary2"; User.email := "";
              User.password := ""; User.firstName := "Mary";
              User.lastName := "Ann Lee" |}.
    split; [reflexivity | discriminate].
Qed.

End FullName.

Section CompletionRateOfTasks.
Import JS.
Variable numberToString : float -> string.

(** The order in which [getTasks()] resolves the tasks does not matter. *)
Theorem getTaskCompletionRate_permutation (tasks1 tasks2 : list Task.t) :
  tasks1 ≡ₚ tasks2 ->
  User.getTaskCompletionRate numberToString tasks1
  = User.getTaskCompletionRate numberToString tasks2.
Proof.
  intros Hperm. unfold User.getTaskCompletionRate.
  assert (Hc : length (filter (fun task => Task.status task = "completed") tasks1)
               = length (filter (fun task => Task.status task = "completed") tasks2))
    by (rewrite Hperm; reflexivity).
  assert (Ht : length tasks1 = length tasks2) by (rewrite Hperm; reflexivity).
  cbv zeta. rewrite Hc, Ht. reflexivity.
Qed.

Lemma toFixed0_small (x : float) :
  PrimFloat.is_nan x = false ->
  is_infinite x = false ->
  (x <? 0)%float = false ->
  (1e21 <=? PrimFloat.abs x)%float = false ->
  toFixed0 numberToString x = pretty (round_half_up (PrimFloat.abs x)).
Proof.
  intros Hn Hi Hs Hb. unfold toFixed0. rewrite Hn, Hi, Hs, Hb. reflexivity.
Qed.

(** What the quotient of [c] completed tasks out of [t] comes to: a number
    that prints as an integer from 0 to 100, 100 when all are completed and
    0 when none is. *)
Definition rateInRange (c t : nat) : bool :=
  let x := (of_length c / of_length t * 100)%float in
  let r := round_half_up (PrimFloat.abs x) in
  negb (PrimFloat.is_nan x) && negb (is_infinite x)
  && negb (x <? 0)%float && negb (1e21 <=? PrimFloat.abs x)%float
  && (0 <=? r) && (r <=? 100)
  && implb (c =? t)%nat (r =? 100) && implb (c =? 0)%nat (r =? 0).

Lemma rateInRange_to_200 :
  forallb (fun t => forallb (fun c => rateInRange c t) (seq 0 (S t)))
          (seq 1 200) = true.
Proof. vm_compute. reflexivity. Qed.

(** For a user with 1 to 200 tasks the completion rate is an integer
    number of percent from 0 to 100: "100%" when every task is completed,
    "0%" when none is. *)
Theorem getTaskCompletionRate_percentage (tasks : list Task.t) :
  (1 <= length tasks <= 200)%nat ->
  exists k : Z,
    0 <= k <= 100
    /\ User.getTaskCompletionRate numberToString tasks = pretty k ++ "%"
    /\ (Forall (fun task => Task.status task = "completed") tasks -> k = 100)
    /\ (Forall (fun task => Task.status task <> "completed") tasks -> k = 0).
Proof.
  intros [Hlo Hhi].
  set (c := length (filter (fun task => Task.status task = "completed") tasks)).
  set (t := length tasks).
  assert (Hct : (c <= t)%nat) by apply length_filter.
  assert (Hok : rateInRange c t = true).
  { pose proof rateInRange_to_200 as Htab.
    rewrite forallb_forall in Htab.
    assert (Hrow : forallb (fun c => rateInRange c t) (seq 0 (S t)) = true)
      by (apply Htab; apply in_seq; unfold t; lia).
    rewrite forallb_forall in Hrow. apply Hrow. apply in_seq. lia. }
  unfold rateInRange in Hok. cbv zeta in Hok.
  repeat (apply andb_prop in Hok as [Hok ?]).
  exists (round_half_up
            (PrimFloat.abs (of_length c / of_length t * 100)%float)).
  split; [lia|]. split.
  - unfold User.getTaskCompletionRate. cbv zeta. fold c. fold t.
    rewrite toFixed0_small; [reflexivity| | | |];
      apply negb_true_iff; assumption.
  - split.
    + intros Hall.
      assert (c = t) as Heq.
      { unfold c, t. f_equal. clear -Hall.
        induction Hall as [|x l Hx _ IH]; [reflexivity|].
        rewrite filter_cons_True by exact Hx. f_equal. exact IH. }
      rewrite Heq, Nat.eqb_refl in *. simpl in *. lia.
    + intros Hnone.
      assert (c = 0%nat) as Heq.
      { unfold c. clear -Hnone.
        induction Hnone as [|x l Hx _ IH]; [reflexivity|].
        rewrite filter_cons_False by exact Hx. exact IH. }
      rewrite Heq in *. simpl in *. lia.
Qed.

End CompletionRateOfTasks.

Section ActiveProjects.


End ActiveProjects.

(** Two orders of the same three tasks give the same rate. *)
Lemma getTaskCompletionRate_permutation_sample :
  User.getTaskCompletionRate (fun _ => "")
    [Samples.task 1 "completed"; Samples.task 2 "pending";
     Samples.task 3 "in_progress"]
  = User.getTaskCompletionRate (fun _ => "")
      [Samples.task 2 "pending"; Samples.task 1 "completed";
       Samples.task 3 "in_progress"].
Proof.
  apply (getTaskCompletionRate_permutation (fun _ => "")). apply perm_swap.
Defined.

(** One task out of three is completed: the rate is a whole percentage. *)
Lemma getTaskCompletionRate_percentage_sample :
  exists k : Z,
    0 <= k <= 100
    /\ User.getTaskCompletionRate (fun _ => "")
         [Samples.task 1 "completed"; Samples.task 2 "pending";
          Samples.task 3 "in_progress"] = pretty k ++ "%"
    /\ (Forall (fun task => Task.status task = "completed")
          [Samples.task 1 "completed"; Samples.task 2 "pending";
           Samples.task 3 "in_progress"] -> k = 100)
    /\ (Forall (fun task => Task.status task <> "completed")
          [Samples.task 1 "completed"; Samples.task 2 "pending";
           Samples.task 3 "in_progress"] -> k = 0).
Proof.
  apply (getTaskCompletionRate_percentage (fun _ => "")). simpl. lia.
Defined.

Section CharacterClasses.
Import Schema.

(** Going through the 256 characters. *)
Ltac each_char c :=
  destruct c as [[] [] [] [] [] [] [] []]; vm_compute;
  try reflexivity; try discriminate; try tauto.

Lemma alnum_is_not_special (c : ascii) :
  isAlnum c = true -> (negb (isWord c) || (code c =? 95)) = false.
Proof. each_char c. Qed.

Lemma alnum_is_no_line_terminator (c : ascii) :
  isAlnum c = true -> negb (isLineTerminator c) = true.
Proof. each_char c. Qed.

Lemma isHex_lowerChar (c : ascii) : isHex (lowerChar c) = isHex c.
Proof. each_char c. Qed.



Lemma chars_app (a b : string) : chars (a ++ b) = (chars a ++ chars b)%list.
Proof.
  unfold chars. induction a as [|c a IH]; [reflexivity|].
  change (String c a ++ b) with (String c (a ++ b)). simpl.
  rewrite IH. reflexivity.
Qed.

Lemma chars_toLowerCase (s : string) :
  chars (toLowerCase s) = map lowerChar (chars s).
Proof. unfold toLowerCase, chars. apply list_ascii_of_string_of_list_ascii. Qed.



End CharacterClasses.

Section PasswordRule.
Import Schema.

Lemma existsb_all_false {A : Type} (f : A -> bool) (l : list A) :
  forallb (fun x => negb (f x)) l = true -> existsb f l = false.
Proof.
  induction l as [|x l IH]; simpl; [reflexivity|].
  intros H. apply andb_prop in H as [Hx Hl].
  apply negb_true_iff in Hx. rewrite Hx, (IH Hl). reflexivity.
Qed.

Lemma forallb_impl {A : Type} (f g : A -> bool) (l : list A) :
  (forall x, f x = true -> g x = true) ->
  forallb f l = true -> forallb g l = true.
Proof.
  intros Hfg. induction l as [|x l IH]; simpl; [reflexivity|].
  intros H. apply andb_prop in H as [Hx Hl]. rewrite (Hfg x Hx), (IH Hl).
  reflexivity.
Qed.

(** What [isStrongPassword] does at the edges of its pattern. A value that
    holds a line feed or a carriage return is rejected whatever else it
    holds, since [.] does not match them. A value of letters and digits only
    is rejected: it has no special character. The underscore counts as a
    special character: letters and digits with an upper-case letter and a
    digit among them, followed by an underscore, 8 to 100 characters in all,
    are accepted. *)
Theorem isStrongPassword_edges (value : string) :
  (Exists (fun c => isLineTerminator c = true) (chars value) ->
   is_Some (User.isStrongPassword value))
  /\ (forallb isAlnum (chars value) = true ->
      is_Some (User.isStrongPassword value))
  /\ (forallb isAlnum (chars value) = true ->
      existsb isUpper (chars value) = true ->
      existsb isDigit (chars value) = true ->
      (7 <= String.length value <= 99)%nat ->
      User.isStrongPassword (value ++ "_") = None).
Proof.
  unfold User.isStrongPassword, User.strongPasswordRegex.
  split; [|split].
  - intros Hex.
    assert (forallb (fun c => negb (isLineTerminator c)) (chars value) = false)
      as ->.
    { apply not_true_is_false. intros Hall.
      rewrite forallb_forall in Hall. apply Exists_exists in Hex as (c & Hin & Hc).
      apply list_elem_of_In in Hin. specialize (Hall c Hin).
      rewrite Hc in Hall. discriminate. }
    rewrite andb_false_r. simpl. eauto.
  - intros Hall.
    assert (existsb (fun c => negb (isWord c) || (code c =? 95)) (chars value)
            = false) as ->.
    { apply existsb_all_false.
      eapply forallb_impl; [|exact Hall]. intros c Hc.
      rewrite (alnum_is_not_special c Hc). reflexivity. }
    rewrite andb_false_r. simpl. eauto.
  - intros Hall Hup Hdig [Hlo Hhi].
    rewrite chars_app, !existsb_app, forallb_app, length_app, chars_length.
    rewrite Hup, Hdig. simpl.
    rewrite orb_true_r. simpl.
    rewrite bool_decide_true by (simpl; lia). simpl.
    rewrite (forallb_impl _ _ _ alnum_is_no_line_terminator Hall).
    reflexivity.
Qed.

End PasswordRule.

Section TagRules.
Import Schema.
Context `{!ValidatorJS}.

(** A color that the pattern of the Tag model accepts is a [#] followed by
    three or six characters, and a color is accepted exactly when its
    lower-case form is: the pattern takes hexadecimal digits in either
    case. *)
Theorem hexColor_shape_and_case (s : string) :
  (test HexColor s = true ->
   (String.length s = 4%nat \/ String.length s = 7%nat)
   /\ head (chars s) = Some "#"%char)
  /\ test HexColor (toLowerCase s) = test HexColor s.
Proof.
  unfold test. rewrite chars_toLowerCase, <- chars_length.
  destruct (chars s) as [|c ds]; [split; [discriminate | reflexivity]|].
  assert (Hds : forallb isHex (map lowerChar ds) = forallb isHex ds).
  { clear. induction ds as [|d ds IH]; simpl; [reflexivity|].
    rewrite isHex_lowerChar, IH. reflexivity. }
  destruct c as [[] [] [] [] [] [] [] []];
    try (split; [discriminate | reflexivity]).
  split.
  - intros Ht. apply andb_prop in Ht as [Ht _]. apply orb_prop in Ht.
    simpl. split; [|reflexivity].
    destruct Ht as [Ht|Ht]; apply bool_decide_eq_true in Ht; lia.
  - cbn [map]. change (lowerChar "#"%char) with "#"%char.
    rewrite length_map, Hds. reflexivity.
Qed.



End TagRules.

Section Hooks.
Import Index.

(** The line a hook logs tells which of the three hooks wrote it, and for
    a given model it tells the id of the record. *)
Theorem hook_lines_tell_apart (model1 model2 : string) (i j : Z) :
  afterCreate model1 i <> afterUpdate model2 j
  /\ afterCreate model1 i <> afterDestroy model2 j
  /\ afterUpdate model1 i <> afterDestroy model2 j
  /\ (afterCreate model1 i = afterCreate model1 j -> i = j)
  /\ (afterUpdate model1 i = afterUpdate model1 j -> i = j)
  /\ (afterDestroy model1 i = afterDestroy model1 j -> i = j).
Proof.
  unfold afterCreate, afterUpdate, afterDestroy.
  repeat split; try (simpl; discriminate);
    intros Heq; repeat apply String.app_inj in Heq;
    apply (inj pretty) in Heq; exact Heq.
Qed.

End Hooks.


Section ValidatedNames.
Import Schema.

Lemma letters_hold_no_space (cs : list ascii) :
  forallb isLetter cs = true ->
  length (filter (fun c => c = " "%char) cs) = 0%nat.
Proof.
  induction cs as [|c cs IH]; simpl; [reflexivity|].
  intros Hall. apply andb_prop in Hall as [Hc Hcs].
  rewrite filter_cons_False; [auto|].
  intros ->. rewrite space_is_no_letter in Hc. discriminate.
Qed.

(** For a user whose first and last name pass the rules of the model
    ([len: [2, 50]] and letters only), the full name has 5 to 101
    characters and holds exactly one space. *)
Theorem getFullName_of_valid_names (u : User.t) :
  test LettersOnly (User.firstName u) = true ->
  test LettersOnly (User.lastName u) = true ->
  (2 <= String.length (User.firstName u) <= 50)%nat ->
  (2 <= String.length (User.lastName u) <= 50)%nat ->
  (5 <= String.length (User.getFullName u) <= 101)%nat
  /\ length (filter (fun c => c = " "%char) (chars (User.getFullName u)))
     = 1%nat.
Proof.
  intros Hf Hl Hlf Hll. unfold User.getFullName.
  unfold test in Hf, Hl.
  apply andb_prop in Hf as [_ Hf]. apply andb_prop in Hl as [_ Hl].
  rewrite <- !chars_length in *. rewrite !chars_app, !length_app.
  rewrite !filter_app, !length_app.
  rewrite (letters_hold_no_space _ Hf), (letters_hold_no_space _ Hl).
  simpl. split; [lia | reflexivity].
Qed.

End ValidatedNames.

Lemma getFullName_of_valid_names_sample :
  (5 <= String.length
          (User.getFullName
             {| User.id := 1; User.username := "alice";
                User.email := "alice@example.com";
                User.password := "Secret_123"; User.firstName := "Alice";
                User.lastName := "Liddell" |}) <= 101)%nat
  /\ length (filter (fun c => c = " "%char)
               (Schema.chars
                  (User.getFullName
                     {| User.id := 1; User.username := "alice";
                        User.email := "alice@example.com";
                        User.password := "Secret_123";
                        User.firstName := "Alice";
                        User.lastName := "Liddell" |}))) = 1%nat.
Proof.
  apply getFullName_of_valid_names;
    first [ reflexivity | simpl; lia ].
Defined.

Example isStrongPassword_underscore :
  User.isStrongPassword "Secret12_" = None
  /\ User.isStrongPassword "Secret123" <> None
  /\ User.isStrongPassword ("Secret_1" ++ String "010"%char "23") <> None.
Proof. vm_compute. repeat split; discriminate. Qed.

Example hexColor_samples :
  Schema.test Schema.HexColor "#FFF" = true
  /\ Schema.test Schema.HexColor "#3498DB" = true
  /\ Schema.test Schema.HexColor "#ffff" = false
  /\ Schema.test Schema.HexColor "3498db" = false.
Proof. vm_compute. repeat split. Qed.
